(** * Registered-domain lookup (regdom.c): shallow embedding and properties

    The development follows src/C/regdom.c.  C strings are lists of
    characters whose terminating NUL is implicit, pointers into a string are
    [Z] offsets from its first character, and every read is bounds-checked so
    that an out-of-bounds access, a call to [abort()] and a normal return are
    three different outcomes. *)

From Stdlib Require Import String Ascii List ZArith Bool Lia.
Import ListNotations.

Local Open Scope Z_scope.
Local Set Warnings "-register-all".

(** ** Outcomes of C code *)

Inductive outcome (A : Type) : Type :=
| Ret (a : A)      (* normal return *)
| Abort            (* the program called abort() *)
| Undefined        (* out-of-bounds access or NULL dereference *)
| OutOfFuel.       (* the model's recursion bound was hit *)

Arguments Ret {A} a.
Arguments Abort {A}.
Arguments Undefined {A}.
Arguments OutOfFuel {A}.

Definition bind {A B : Type} (m : outcome A) (k : A -> outcome B) : outcome B :=
  match m with
  | Ret a => k a
  | Abort => Abort
  | Undefined => Undefined
  | OutOfFuel => OutOfFuel
  end.

Notation "x <- m ;; k" := (bind m (fun x => k))
  (at level 61, m at next level, right associativity).

(** ** C strings *)

Definition NUL : ascii := "000"%char.
Definition cs (s : string) : list ascii := list_ascii_of_string s.

Definition is_nul (c : ascii) : bool := Ascii.eqb c NUL.
Definition is_dot (c : ascii) : bool := Ascii.eqb c "."%char.

(** [strlen]: number of characters before the first NUL (the end of the list
    is the implicit terminator). *)
Fixpoint strlen (s : list ascii) : nat :=
  match s with
  | [] => O
  | c :: r => if is_nul c then O else S (strlen r)
  end.

(** The string a [char *] denotes: the characters before the first NUL. *)
Definition cstr (s : list ascii) : list ascii := firstn (strlen s) s.

(** [p[i]] for an array [p] of [length p + 1] characters, the last one NUL. *)
Definition rd (p : list ascii) (i : Z) : outcome ascii :=
  if (0 <=? i) && (i <=? Z.of_nat (length p))
  then Ret (nth (Z.to_nat i) p NUL)
  else Undefined.

(** The [n] characters at [p + off], as [memcpy] and [memcmp] read them. *)
Definition bytes_at (p : list ascii) (off n : Z) : outcome (list ascii) :=
  if (0 <=? off) && (0 <=? n) && (off + n <=? Z.of_nat (length p) + 1)
  then Ret (firstn (Z.to_nat n) (skipn (Z.to_nat off) (p ++ [NUL])))
  else Undefined.

(** The C string starting at [p + off]. *)
Definition cstr_at (p : list ascii) (off : Z) : list ascii :=
  cstr (skipn (Z.to_nat off) p).

(** [strchr(p + off, '.') != NULL]. *)
Definition strchr_dot (p : list ascii) (off : Z) : outcome bool :=
  if (0 <=? off) && (off <=? Z.of_nat (length p))
  then Ret (existsb is_dot (cstr_at p off))
  else Undefined.

Definition list_ascii_eqb (a b : list ascii) : bool :=
  if list_eq_dec ascii_dec a b then true else false.

(** [size_t] conversion of a pointer difference (64-bit [size_t]). *)
Definition size_t_of (d : Z) : Z := d mod 2 ^ 64.

(** ** The suffix tree *)

(** [attr] is either a null pointer or the address of the static [THIS]. *)
Inductive attr_t : Type := ATTR_NULL | THIS.

Definition attr_is_THIS (a : attr_t) : bool :=
  match a with THIS => true | ATTR_NULL => false end.

(** [struct tldnode]; [num_children] is the length of [subnodes], and a
    [dom] that was never assigned is [None]. *)
Inductive tldnode : Type :=
  mk_tldnode (dom : option (list ascii)) (attr : attr_t)
             (subnodes : list tldnode).

Definition dom (n : tldnode) : option (list ascii) :=
  match n with mk_tldnode d _ _ => d end.
Definition attr (n : tldnode) : attr_t :=
  match n with mk_tldnode _ a _ => a end.
Definition subnodes (n : tldnode) : list tldnode :=
  match n with mk_tldnode _ _ l => l end.
Definition num_children (n : tldnode) : Z := Z.of_nat (length (subnodes n)).

Definition ALL : list ascii := cs "*".

Fixpoint height (n : tldnode) : nat :=
  match n with
  | mk_tldnode _ _ l => S (fold_right (fun c acc => Nat.max (height c) acc) O l)
  end.

(** ** findTldNode *)

(** [!strcmp(node->dom, ALL)]. *)
Definition strcmp_ALL (d : option (list ascii)) : outcome bool :=
  match d with
  | None => Undefined
  | Some s => Ret (list_ascii_eqb (cstr s) ALL)
  end.

(** [m == n && !memcmp(node->dom, seg_start, n)], where [n] is
    [strlen(node->dom)]. *)
Definition label_matches (d : option (list ascii)) (hostname : list ascii)
    (seg_start seg_end : Z) : outcome bool :=
  match d with
  | None => Undefined
  | Some s =>
      let m := size_t_of (seg_end - seg_start) in
      let n := Z.of_nat (strlen s) in
      if m =? n then
        w <- bytes_at hostname seg_start n ;;
        Ret (list_ascii_eqb (cstr s) w)
      else Ret false
  end.

(** The [for] loop of [findTldNode] over the remaining children. *)
Fixpoint findTldNode_from (children : list tldnode) (allNode : option tldnode)
    (hostname : list ascii) (seg_start seg_end : Z)
    : outcome (option tldnode) :=
  match children with
  | [] => Ret allNode
  | child :: rest =>
      is_all <- match allNode with
                | None => strcmp_ALL (dom child)
                | Some _ => Ret false
                end ;;
      if is_all
      then findTldNode_from rest (Some child) hostname seg_start seg_end
      else
        hit <- label_matches (dom child) hostname seg_start seg_end ;;
        if hit then Ret (Some child)
        else findTldNode_from rest allNode hostname seg_start seg_end
  end.

Definition findTldNode (parent : tldnode) (hostname : list ascii)
    (seg_start seg_end : Z) : outcome (option tldnode) :=
  findTldNode_from (subnodes parent) None hostname seg_start seg_end.

(** ** getRegisteredDomainDropI *)

(** [while (seg_start > head && *seg_start != '.') seg_start--;]
    [n] bounds the number of iterations. *)
Fixpoint scan_back (n : nat) (hostname : list ascii) (seg_start : Z)
    : outcome Z :=
  if seg_start >? 0 then
    c <- rd hostname seg_start ;;
    if is_dot c then Ret seg_start
    else match n with
         | S n' => scan_back n' hostname (seg_start - 1)
         | O => OutOfFuel
         end
  else Ret seg_start.

(** The scan to the start of the label followed by
    [if ( *seg_start == '.') seg_start++;]. *)
Definition label_start (hostname : list ascii) (seg_start : Z) : outcome Z :=
  s <- scan_back (Z.to_nat seg_start) hostname seg_start ;;
  c <- rd hostname s ;;
  Ret (if is_dot c then s + 1 else s).

(** [subtree->num_children == 1 && subtree->subnodes[0]->attr == THIS]. *)
Definition only_child_is_exception (subtree : tldnode) : bool :=
  match subnodes subtree with
  | [c] => attr_is_THIS (attr c)
  | _ => false
  end.

(** How the [for (;;)] loop is left: by [break] with the final [seg_start],
    or by [return 0]. *)
Inductive loop_exit : Type :=
| Matched (seg_start : Z)
| TooShort.

Fixpoint descend (fuel : nat) (hostname : list ascii) (tree : tldnode)
    (seg_start seg_end : Z) : outcome loop_exit :=
  match fuel with
  | O => OutOfFuel
  | S fuel' =>
      seg_start <- label_start hostname seg_start ;;
      found <- findTldNode tree hostname seg_start seg_end ;;
      match found with
      | None => Ret (Matched seg_start)
      | Some subtree =>
          if only_child_is_exception subtree then Ret (Matched seg_start)
          else if seg_start =? 0 then Ret TooShort
          else
            c <- rd hostname (seg_start - 1) ;;
            if negb (is_dot c) then Abort
            else
              let seg_end := seg_start - 1 in
              let seg_start := seg_end - 1 in
              descend fuel' hostname subtree seg_start seg_end
      end
  end.

(** The code after the loop: the two-label check and the extension by one
    label. *)
Definition finish (hostname : list ascii) (drop_unknown : Z) (e : loop_exit)
    : outcome (option Z) :=
  match e with
  | TooShort => Ret None
  | Matched seg_start =>
      has_dot <- strchr_dot hostname seg_start ;;
      if has_dot then Ret (Some seg_start)
      else if (seg_start =? 0) || negb (drop_unknown =? 0) then Ret None
      else
        seg_start <- label_start hostname (seg_start - 2) ;;
        Ret (Some seg_start)
  end.

(** The result is the offset of the returned pointer from [hostname], or
    [None] for a null pointer. *)
Definition getRegisteredDomainDropI (hostname : list ascii) (tree : tldnode)
    (drop_unknown : Z) : outcome (option Z) :=
  c0 <- rd hostname 0 ;;
  if is_dot c0 || is_nul c0 then Ret None
  else
    let seg_end := Z.of_nat (strlen hostname) in
    c <- rd hostname (seg_end - 1) ;;
    let seg_end := if is_dot c then seg_end - 1 else seg_end in
    e <- descend (height tree) hostname tree seg_end seg_end ;;
    finish hostname drop_unknown e.

Definition getRegisteredDomainDrop (hostname : list ascii) (tree : tldnode)
    (drop_unknown : Z) : outcome (option Z) :=
  getRegisteredDomainDropI hostname tree drop_unknown.

Definition getRegisteredDomain (hostname : list ascii) (tree : tldnode)
    : outcome (option Z) :=
  getRegisteredDomainDropI hostname tree 0.

(** The string the returned pointer denotes. *)
Definition result_string (hostname : list ascii) (r : outcome (option Z))
    : outcome (option (list ascii)) :=
  o <- r ;; Ret (option_map (cstr_at hostname) o).

(** ** readTldString *)

Definition is_space (c : ascii) : bool :=
  let n := nat_of_ascii c in
  Nat.eqb n 32 || (Nat.leb 9 n && Nat.leb n 13).

Definition digit_val (c : ascii) : option Z :=
  let n := Z.of_nat (nat_of_ascii c) in
  if (48 <=? n) && (n <=? 57) then Some (n - 48) else None.

Fixpoint skip_spaces (s : list ascii) : list ascii :=
  match s with
  | c :: r => if is_space c then skip_spaces r else s
  | [] => []
  end.

Fixpoint atoi_digits (s : list ascii) (acc : Z) : Z :=
  match s with
  | c :: r =>
      match digit_val c with
      | Some d => atoi_digits r (acc * 10 + d)
      | None => acc
      end
  | [] => acc
  end.

Definition INT_MAX : Z := 2 ^ 31 - 1.
Definition INT_MIN : Z := - 2 ^ 31.

(** [atoi(buf)]: white space, an optional sign, then decimal digits; a value
    that does not fit [int] is undefined. *)
Definition atoi (buf : list ascii) : outcome Z :=
  let s := skip_spaces (cstr buf) in
  let v := match s with
           | c :: r =>
               if Ascii.eqb c "-" then - atoi_digits r 0
               else if Ascii.eqb c "+" then atoi_digits r 0
               else atoi_digits s 0
           | [] => 0
           end in
  if (INT_MIN <=? v) && (v <=? INT_MAX) then Ret v else Undefined.

(** Conversion of an [int] to [unsigned int]. *)
Definition to_unsigned (v : Z) : Z := v mod 2 ^ 32.

Definition is_delim (c : ascii) : bool :=
  Ascii.eqb c "," || Ascii.eqb c ")" || Ascii.eqb c "(".

(** [memset(node, 0, sizeof(tldnode))]. *)
Definition zero_node : tldnode := mk_tldnode None ATTR_NULL [].

Definition set_dom (n : tldnode) (d : list ascii) : tldnode :=
  mk_tldnode (Some d) (attr n) (subnodes n).
Definition set_attr (n : tldnode) (a : attr_t) : tldnode :=
  mk_tldnode (dom n) a (subnodes n).
Definition set_subnodes (n : tldnode) (l : list tldnode) : tldnode :=
  mk_tldnode (dom n) (attr n) l.

(** The [for] loop over the children: child [i] is read from one past the
    position the previous read stopped at. *)
Fixpoint read_children (read_child : Z -> outcome (tldnode * Z)) (n : nat)
    (pos : Z) : outcome (list tldnode * Z) :=
  match n with
  | O => Ret ([], pos)
  | S n' =>
      r <- read_child (pos + 1) ;;
      rs <- read_children read_child n' (snd r) ;;
      Ret (fst r :: fst rs, snd rs)
  end.

(** The [do ... while (pos < len)] loop of [readTldString]; one unit of
    [fuel] is used per iteration, and a child is read with what is left.
    Positions are C [int]s; a read past the terminating NUL is undefined, so
    a defined run keeps them within [len + 2] and they are not wrapped. *)
Fixpoint readTldString_loop (fuel : nat) (s : list ascii) (len : Z)
    (node : tldnode) (start state pos : Z) : outcome (tldnode * Z) :=
  match fuel with
  | O => OutOfFuel
  | S fuel' =>
      c <- rd s pos ;;
      let next node start state :=
        if pos + 1 <? len
        then readTldString_loop fuel' s len node start state (pos + 1)
        else Ret (node, pos + 1) in
      if state =? 0 then
        if is_delim c then
          let lenc :=
            if attr_is_THIS (attr node) then pos - start - 1 else pos - start in
          d <- bytes_at s start lenc ;;
          let node := set_dom node d in
          if Ascii.eqb c "(" then next node pos 1
          else Ret (node, pos)
        else if Ascii.eqb c "!" then next (set_attr node THIS) start state
        else next node start state
      else if state =? 1 then
        if Ascii.eqb c ":" then
          buf <- bytes_at s (start + 1) (pos - start - 1) ;;
          n <- atoi buf ;;
          r <- read_children
                 (fun p => readTldString_loop fuel' s len zero_node p 0 p)
                 (Z.to_nat (to_unsigned n)) pos ;;
          Ret (set_subnodes node (fst r), snd r + 1)
        else next node start state
      else next node start state
  end.

Definition readTldString (fuel : nat) (s : list ascii) (len pos : Z)
    : outcome (tldnode * Z) :=
  readTldString_loop fuel s len zero_node pos 0 pos.

(** [loadTldTree], with the contents of [tldString] (tld-canon.h) as a
    parameter; [sizeof tldString - 1] is the length of the list. *)
Definition loadTldTree (tldString : list ascii) : outcome tldnode :=
  let len := Z.of_nat (length tldString) in
  r <- readTldString (S (length tldString)) tldString len 0 ;;
  Ret (fst r).

(** ** printTldTree *)

Definition NL : ascii := "010"%char.

(** [sprintf(dest, "  %s", spacer)] into [char dest[100]]: two spaces, the
    spacer and the terminating NUL have to fit. *)
Definition indent (spacer : list ascii) : outcome (list ascii) :=
  if Z.of_nat (strlen spacer) + 3 <=? 100
  then Ret (" "%char :: " "%char :: cstr spacer)
  else Undefined.

(** The [for] loop over the children, with the output of the calls
    concatenated. *)
Fixpoint print_children (print_child : tldnode -> outcome (list ascii))
    (children : list tldnode) : outcome (list ascii) :=
  match children with
  | [] => Ret []
  | c :: rest =>
      o <- print_child c ;;
      os <- print_children print_child rest ;;
      Ret (o ++ os)
  end.

Section Printer.
(** What [printf] writes for a null pointer under [%s]: undefined in ISO C,
    the text [(null)] in the GNU C library. *)
Variable null_s : outcome (list ascii).

Definition show_dom (d : option (list ascii)) : outcome (list ascii) :=
  match d with
  | Some s => Ret (cstr s)
  | None => null_s
  end.

Definition show_attr (a : attr_t) : outcome (list ascii) :=
  match a with
  | THIS => Ret ["!"%char]
  | ATTR_NULL => null_s
  end.

(** The text written to the standard output. *)
Fixpoint printTldTreeI (node : tldnode) (spacer : list ascii)
    : outcome (list ascii) :=
  match node with
  | mk_tldnode d a l =>
      match l with
      | [] =>
          ds <- show_dom d ;;
          ats <- show_attr a ;;
          Ret (cstr spacer ++ ds ++ ":"%char :: " "%char :: ats ++ [NL])
      | _ :: _ =>
          ds <- show_dom d ;;
          rest <- print_children
                    (fun c => dest <- indent spacer ;; printTldTreeI c dest)
                    l ;;
          Ret (cstr spacer ++ ds ++ ":"%char :: NL :: rest)
      end
  end.

Definition printTldTree (node : tldnode) (spacer : list ascii)
    : outcome (list ascii) :=
  printTldTreeI node spacer.
End Printer.

(** ** The compact encoding, as its grammar describes it

    [Node := ExceptionMark? LabelChars ChildBlock?] and
    [ChildBlock := '(' Count ':' Node (',' Node){Count-1} ')'].
    This second description is independent of [readTldString]; the decoder
    is compared with it below. *)

Inductive enc : Type :=
| ELeaf (mark : bool) (label : list ascii)
| EBlock (mark : bool) (label : list ascii) (count : list ascii)
         (kid : enc) (kids : list enc).

(** A label run: the optional exception mark and the label characters. *)
Definition run (mark : bool) (label : list ascii) : list ascii :=
  if mark then "!"%char :: label else label.

Fixpoint render (e : enc) : list ascii :=
  match e with
  | ELeaf m l => run m l
  | EBlock m l cnt k ks =>
      run m l ++ "("%char :: cnt ++ ":"%char :: render k
        ++ flat_map (fun k' => ","%char :: render k') ks ++ [")"%char]
  end.

Definition label_char (c : ascii) : bool :=
  negb (is_delim c) && negb (Ascii.eqb c "!").

Definition is_digit (c : ascii) : bool :=
  match digit_val c with Some _ => true | None => false end.

(** [cnt] is the decimal numeral of [n]. *)
Definition count_ok (cnt : list ascii) (n : nat) : bool :=
  forallb is_digit cnt && (atoi_digits cnt 0 =? Z.of_nat n)
  && (Z.of_nat n <=? INT_MAX).

Fixpoint wf_enc (e : enc) : bool :=
  match e with
  | ELeaf m l => forallb label_char l
  | EBlock m l cnt k ks =>
      forallb label_char l && count_ok cnt (S (length ks))
      && wf_enc k && forallb wf_enc ks
  end.

(** The node [readTldString] builds for an encoding: the label is copied
    from the first character of the run, with the length [lenc] the code
    computes. *)
Definition copied_label (mark : bool) (label : list ascii) : list ascii :=
  let r := run mark label in
  firstn (length r - (if mark then 1 else 0)) r.

Fixpoint decoded_node (e : enc) : tldnode :=
  match e with
  | ELeaf m l =>
      mk_tldnode (Some (copied_label m l)) (if m then THIS else ATTR_NULL) []
  | EBlock m l cnt k ks =>
      mk_tldnode (Some (copied_label m l)) (if m then THIS else ATTR_NULL)
        (decoded_node k :: map decoded_node ks)
  end.

Definition enc_kids (e : enc) : list enc :=
  match e with
  | ELeaf _ _ => []
  | EBlock _ _ _ k ks => k :: ks
  end.

(** Where child [i] of a block starts, given where the first one starts:
    each child is followed by one delimiter. *)
Fixpoint child_start (first : Z) (ks : list enc) (i : nat) : Z :=
  match i, ks with
  | S i', k :: ks' =>
      child_start (first + Z.of_nat (length (render k)) + 1) ks' i'
  | _, _ => first
  end.

(** Characters that leave the state machine where it is: label characters
    in state 0, anything but the colon in state 1. *)
Definition inert (state : Z) (c : ascii) : bool :=
  if state =? 0 then label_char c else negb (Ascii.eqb c ":").

(** The [attr] field after a run with or without the mark. *)
Definition mark_attr (m : bool) : attr_t := if m then THIS else ATTR_NULL.

(** The children after the first, each with the comma before it. *)
Definition siblings (ks : list enc) : list ascii :=
  flat_map (fun k' => ","%char :: render k') ks.

(** What follows a leaf: a comma or a closing parenthesis. *)
Definition follows_leaf (post : list ascii) : Prop :=
  exists d post', post = d :: post' /\ is_delim d = true
                  /\ Ascii.eqb d "(" = false.

(** The decoder reads the encoding [e] wherever it stands in the input. *)
Definition decodes (e : enc) : Prop :=
  wf_enc e = true ->
  forall fuel pre post,
    (length (render e) + 1 <= fuel)%nat ->
    (enc_kids e = [] -> follows_leaf post) ->
    readTldString fuel (pre ++ render e ++ post)
      (Z.of_nat (length (pre ++ render e ++ post))) (Z.of_nat (length pre))
    = Ret (decoded_node e,
           Z.of_nat (length pre) + Z.of_nat (length (render e))).

(** What the decoder does with the block [label(cnt:k,ks...)] standing
    after [pre] in the input: it returns the node and the position just past
    the closing parenthesis, the node has as many children as the count
    says, and child [i] is what the decoder reads one position past the
    delimiter before it, a colon for the first child and a comma for the
    others. *)
Definition block_decoded (fuel : nat) (m : bool) (l cnt : list ascii)
    (k : enc) (ks : list enc) (pre post : list ascii) : Prop :=
  let e := EBlock m l cnt k ks in
  let s := pre ++ render e ++ post in
  let len := Z.of_nat (length s) in
  let stop := Z.of_nat (length pre) + Z.of_nat (length (render e)) in
  let first := Z.of_nat (length pre) + Z.of_nat (length (run m l)) + 1
               + Z.of_nat (length cnt) + 1 in
  exists node,
    readTldString fuel s len (Z.of_nat (length pre)) = Ret (node, stop)
    /\ rd s (stop - 1) = Ret ")"%char
    /\ atoi cnt = Ret (num_children node)
    /\ length (subnodes node) = S (length ks)
    /\ forall i, (i < S (length ks))%nat ->
         let p := child_start first (k :: ks) i in
         rd s (p - 1) = Ret (if Nat.eqb i 0 then ":"%char else ","%char)
         /\ readTldString fuel s len p
            = Ret (nth i (subnodes node) zero_node,
                   p + Z.of_nat (length (render (nth i (k :: ks) k)))).

(** Induction on encodings, with the hypothesis for every child. *)
Section EncInd.
Variable P : enc -> Prop.
Hypothesis P_leaf : forall m l, P (ELeaf m l).
Hypothesis P_block : forall m l cnt k ks,
  P k -> Forall P ks -> P (EBlock m l cnt k ks).

Fixpoint enc_induction (e : enc) : P e :=
  match e with
  | ELeaf m l => P_leaf m l
  | EBlock m l cnt k ks =>
      P_block m l cnt k ks (enc_induction k)
        ((fix all (ks : list enc) : Forall P ks :=
            match ks with
            | [] => Forall_nil P
            | x :: r => Forall_cons x (enc_induction x) (all r)
            end) ks)
  end.
End EncInd.

(** ** Rule sets of the scenarios *)

(** Modelled from the spec: the table [tldString] of tld-canon.h is not
    among the sources, so the rule set of the concrete scenarios is written
    in the compact encoding here: [com] as a plain leaf, [uk] with a wildcard
    child and the exception for [parliament] under it, and a top-level
    wildcard.  An exception is the one-child block [label(1:!)], the shape
    the resolver tests for. *)
Definition scenario_tldString : list ascii :=
  cs "root(3:com,uk(2:*,parliament(1:!)),*)".

(** Modelled from the spec: the same rule set without the top-level
    wildcard, so that [xx] matches no child of the root. *)
Definition scenario_tldString_no_fallback : list ascii :=
  cs "root(2:com,uk(2:*,parliament(1:!)))".

Definition leaf (l : string) : tldnode := mk_tldnode (Some (cs l)) ATTR_NULL [].

Definition uk_subtree : tldnode :=
  mk_tldnode (Some (cs "uk")) ATTR_NULL
    [leaf "*";
     mk_tldnode (Some (cs "parliament")) ATTR_NULL
       [mk_tldnode (Some []) THIS []]].

Definition scenario_tree : tldnode :=
  mk_tldnode (Some (cs "root")) ATTR_NULL [leaf "com"; uk_subtree; leaf "*"].

Definition scenario_tree_no_fallback : tldnode :=
  mk_tldnode (Some (cs "root")) ATTR_NULL [leaf "com"; uk_subtree].

(** A tree whose only rule is [com]. *)
Definition com_tree : tldnode :=
  mk_tldnode (Some (cs "root")) ATTR_NULL [leaf "com"].

(** ** Predicates used in the statements *)

(** A dot with at least one character on each side: a separator between
    two labels. *)
Definition has_embedded_dot (r : list ascii) : bool :=
  existsb is_dot (removelast (tl r)).

(** The label in the window [seg_start, seg_end). *)
Definition window (hostname : list ascii) (seg_start seg_end : Z)
    : list ascii :=
  firstn (Z.to_nat (seg_end - seg_start)) (skipn (Z.to_nat seg_start) hostname).

(** The label of a node as [strcmp] and [strlen] see it. *)
Definition node_label (n : tldnode) : option (list ascii) :=
  option_map cstr (dom n).

(** Every node of the tree has a label, and the label is shorter than
    [SIZE_MAX], as every string in memory is. *)
Fixpoint well_labelled (n : tldnode) : bool :=
  match n with
  | mk_tldnode d _ l =>
      match d with
      | Some s => Z.of_nat (strlen s) <? 2 ^ 64 - 1
      | None => false
      end
      && forallb well_labelled l
  end.

(** The node an encoding stands for: its label, the exception flag for
    its mark, and the nodes of its children. *)
Fixpoint intended_node (e : enc) : tldnode :=
  match e with
  | ELeaf m l => mk_tldnode (Some l) (mark_attr m) []
  | EBlock m l cnt k ks =>
      mk_tldnode (Some l) (mark_attr m)
        (intended_node k :: map intended_node ks)
  end.

(** The mark only stands alone, as in [label(1:!)]. *)
Definition bare_mark (m : bool) (l : list ascii) : bool :=
  negb m || match l with [] => true | _ :: _ => false end.

Fixpoint marks_bare (e : enc) : bool :=
  match e with
  | ELeaf m l => bare_mark m l
  | EBlock m l cnt k ks =>
      bare_mark m l && marks_bare k && forallb marks_bare ks
  end.

(** ** The algorithm on labels

    A second description of the search and of the resolver, on lists of
    labels instead of windows into the host name; the code is compared with
    it below. *)

(** The node's label, as a string, is [l]. *)
Definition has_label (l : list ascii) (n : tldnode) : bool :=
  match dom n with
  | Some d => list_ascii_eqb (cstr d) l
  | None => false
  end.

(** The scan of the children for the label [l], holding the first wildcard
    child in [allNode]. *)
Fixpoint lookup_from (children : list tldnode) (allNode : option tldnode)
    (l : list ascii) : option tldnode :=
  match children with
  | [] => allNode
  | child :: rest =>
      if match allNode with
         | None => has_label ALL child
         | Some _ => false
         end
      then lookup_from rest (Some child) l
      else if has_label l child then Some child
           else lookup_from rest allNode l
  end.

Definition lookup (parent : tldnode) (l : list ascii) : option tldnode :=
  lookup_from (subnodes parent) None l.

(** A label of a proper host name: not empty, without dots and NULs. *)
Definition label_ok (l : list ascii) : bool :=
  match l with
  | [] => false
  | _ => forallb (fun c => negb (is_dot c) && negb (is_nul c)) l
  end.

(** Host names from their labels, the rightmost label first:
    [prefix_str lefts] is what stands before a label that has the labels
    [lefts] to its left, each followed by a dot. *)
Fixpoint prefix_str (lefts : list (list ascii)) : list ascii :=
  match lefts with
  | [] => []
  | l :: lefts' => prefix_str lefts' ++ l ++ ["."%char]
  end.

Definition hostname_of (rls : list (list ascii)) : list ascii :=
  match rls with
  | [] => []
  | cur :: lefts => prefix_str lefts ++ cur
  end.

(** The descent on labels: the number of labels, counted from the right,
    at which the loop is ended by [break], or [None] when all labels are
    used up. *)
Fixpoint matched_labels (tree : tldnode) (rls : list (list ascii))
    : option nat :=
  match rls with
  | [] => None
  | cur :: lefts =>
      match lookup tree cur with
      | None => Some 1%nat
      | Some subtree =>
          if only_child_is_exception subtree then Some 1%nat
          else match lefts with
               | [] => None
               | _ :: _ => option_map S (matched_labels subtree lefts)
               end
      end
  end.

(** The number of labels of the registered domain: the labels the descent
    stopped at, or two when it stopped at the first one, there is a second
    one and unknown suffixes are kept. *)
Definition registered_labels (tree : tldnode) (rls : list (list ascii))
    (drop : bool) : option nat :=
  match matched_labels tree rls with
  | None => None
  | Some i =>
      if (2 <=? i)%nat then Some i
      else if (length rls <=? 1)%nat || drop then None
           else Some 2%nat
  end.

(** * Properties *)

(** ** The outcome monad *)

Section OutcomeFacts.
Context {A B : Type}.

Lemma bind_Ret_inv (m : outcome A) (k : A -> outcome B) (b : B) :
  bind m k = Ret b -> exists a, m = Ret a /\ k a = Ret b.
Proof. destruct m; simpl; intros H; try discriminate. eauto. Qed.

Lemma bind_not_Abort (m : outcome A) (k : A -> outcome B) :
  m <> Abort -> (forall a, m = Ret a -> k a <> Abort) -> bind m k <> Abort.
Proof. destruct m; simpl; intros H1 H2; try congruence. now apply H2. Qed.

Lemma bind_not_OutOfFuel (m : outcome A) (k : A -> outcome B) :
  m <> OutOfFuel -> (forall a, m = Ret a -> k a <> OutOfFuel) ->
  bind m k <> OutOfFuel.
Proof. destruct m; simpl; intros H1 H2; try congruence. now apply H2. Qed.
End OutcomeFacts.

(** Splits a hypothesis [bind m k = Ret b] into its two steps. *)
Ltac bind_inv H :=
  let a := fresh "a" in
  let Ha := fresh "Ha" in
  apply bind_Ret_inv in H; destruct H as (a & Ha & H).

Tactic Notation "bind_step" hyp(H) "as" ident(a) ident(Ha) :=
  apply bind_Ret_inv in H; destruct H as (a & Ha & H).

(** Equations between concatenations and between their lengths. *)
Ltac reassoc := subst; repeat (rewrite <- ?app_assoc; cbn [app]); reflexivity.
Ltac lengths :=
  repeat (progress (repeat rewrite length_app; cbn [length])); lia.

(** ** C strings *)

Lemma is_dot_true (c : ascii) : is_dot c = true -> c = "."%char.
Proof. unfold is_dot. apply Ascii.eqb_eq. Qed.

Lemma is_nul_true (c : ascii) : is_nul c = true -> c = NUL.
Proof. unfold is_nul. apply Ascii.eqb_eq. Qed.

Lemma strlen_le_length (s : list ascii) : (strlen s <= length s)%nat.
Proof.
  induction s as [|c r IH]; simpl; [lia|].
  destruct (is_nul c); simpl; lia.
Qed.

Lemma nth_strlen (s : list ascii) : nth (strlen s) s NUL = NUL.
Proof.
  induction s as [|c r IH]; simpl; [reflexivity|].
  destruct (is_nul c) eqn:E; [now apply is_nul_true|exact IH].
Qed.

Lemma length_cstr (s : list ascii) : length (cstr s) = strlen s.
Proof.
  unfold cstr. rewrite length_firstn. pose proof (strlen_le_length s). lia.
Qed.

Lemma strlen_skipn (s : list ascii) (n : nat) :
  (n <= strlen s)%nat -> strlen (skipn n s) = (strlen s - n)%nat.
Proof.
  revert s; induction n as [|n IH]; intros s Hn; simpl.
  - lia.
  - destruct s as [|c r]; simpl in *; [lia|].
    destruct (is_nul c); [lia|]. apply IH. lia.
Qed.

Lemma cstr_skipn (s : list ascii) (n : nat) :
  (n <= strlen s)%nat -> cstr (skipn n s) = skipn n (cstr s).
Proof.
  intros Hn. unfold cstr. rewrite strlen_skipn by assumption.
  rewrite skipn_firstn_comm. reflexivity.
Qed.

Lemma rd_Ret (p : list ascii) (i : Z) (c : ascii) :
  rd p i = Ret c ->
  0 <= i <= Z.of_nat (length p) /\ c = nth (Z.to_nat i) p NUL.
Proof.
  unfold rd. destruct ((0 <=? i) && (i <=? Z.of_nat (length p))) eqn:E;
    intros H; inversion H; subst.
  apply andb_prop in E. destruct E as [E1 E2].
  apply Z.leb_le in E1, E2. auto.
Qed.

Lemma rd_in_bounds (p : list ascii) (i : Z) :
  0 <= i <= Z.of_nat (length p) -> rd p i = Ret (nth (Z.to_nat i) p NUL).
Proof.
  intros [H1 H2]. unfold rd.
  apply Z.leb_le in H1, H2. now rewrite H1, H2.
Qed.

Lemma rd_not_Abort (p : list ascii) (i : Z) : rd p i <> Abort.
Proof. unfold rd. destruct (_ && _); discriminate. Qed.

Lemma rd_not_OutOfFuel (p : list ascii) (i : Z) : rd p i <> OutOfFuel.
Proof. unfold rd. destruct (_ && _); discriminate. Qed.

Lemma rd_strlen (p : list ascii) : rd p (Z.of_nat (strlen p)) = Ret NUL.
Proof.
  rewrite rd_in_bounds by (pose proof (strlen_le_length p); lia).
  now rewrite Nat2Z.id, nth_strlen.
Qed.

(** ** The backward scan *)

Section Scan.
Variable hostname : list ascii.

Lemma scan_back_Ret (n : nat) : forall p s,
  scan_back n hostname p = Ret s ->
  s <= p /\ (0 <= p -> 0 <= s) /\ (0 < s -> rd hostname s = Ret "."%char).
Proof.
  induction n as [|n IH]; intros p s H; simpl in H.
  - destruct (p >? 0) eqn:Ep.
    + bind_inv H. destruct (is_dot a) eqn:Ed; [|discriminate].
      inversion H; subst. apply is_dot_true in Ed; subst.
      repeat split; auto; lia.
    + inversion H; subst. rewrite Z.gtb_ltb in Ep. apply Z.ltb_ge in Ep.
      repeat split; auto; lia.
  - destruct (p >? 0) eqn:Ep.
    + bind_inv H. destruct (is_dot a) eqn:Ed.
      * inversion H; subst. apply is_dot_true in Ed; subst.
        repeat split; auto; lia.
      * apply IH in H. apply Z.gtb_lt in Ep.
        destruct H as (H1 & H2 & H3). repeat split; auto; lia.
    + inversion H; subst. rewrite Z.gtb_ltb in Ep. apply Z.ltb_ge in Ep.
      repeat split; auto; lia.
Qed.

Lemma scan_back_not_Abort (n : nat) : forall p,
  scan_back n hostname p <> Abort.
Proof.
  induction n as [|n IH]; intros p; simpl; destruct (p >? 0);
    try discriminate; apply bind_not_Abort; try apply rd_not_Abort;
    intros a _; destruct (is_dot a); try discriminate; apply IH.
Qed.

Lemma scan_back_not_OutOfFuel (n : nat) : forall p,
  (Z.to_nat p <= n)%nat -> scan_back n hostname p <> OutOfFuel.
Proof.
  induction n as [|n IH]; intros p Hp; simpl; destruct (p >? 0) eqn:Ep;
    try discriminate; apply Z.gtb_lt in Ep; [lia|].
  apply bind_not_OutOfFuel; [apply rd_not_OutOfFuel|].
  intros a _; destruct (is_dot a); [discriminate|]. apply IH. lia.
Qed.

(** After the scan and the step over the dot, [seg_start] is the start of
    the host name or the position just after a dot. *)
Lemma label_start_Ret (p s : Z) :
  label_start hostname p = Ret s ->
  0 <= s <= p + 1
  /\ (s <> 0 -> rd hostname (s - 1) = Ret "."%char)
  /\ (p <= Z.of_nat (strlen hostname) -> s <= Z.of_nat (strlen hostname)).
Proof.
  unfold label_start. intros H. bind_inv H. bind_inv H.
  apply scan_back_Ret in Ha. destruct Ha as (H1 & H2 & H3).
  pose proof (rd_Ret _ _ _ Ha0) as [Hb Hc].
  destruct (is_dot a0) eqn:Ed; inversion H; subst s; clear H.
  - apply is_dot_true in Ed. subst a0.
    repeat split; try lia.
    + intros _. now replace (a + 1 - 1) with a by lia.
    + intros Hp. assert (a <> Z.of_nat (strlen hostname)); [|lia].
      intros ->. rewrite rd_strlen in Ha0. discriminate.
  - repeat split; try lia.
    intros Hs. assert (0 < a) as Hpos by lia.
    apply H3 in Hpos. rewrite Hpos in Ha0. injection Ha0 as <-.
    discriminate Ed.
Qed.

Lemma label_start_not_Abort (p : Z) : label_start hostname p <> Abort.
Proof.
  unfold label_start. apply bind_not_Abort; [apply scan_back_not_Abort|].
  intros a _. apply bind_not_Abort; [apply rd_not_Abort|]. discriminate.
Qed.

Lemma label_start_not_OutOfFuel (p : Z) : label_start hostname p <> OutOfFuel.
Proof.
  unfold label_start.
  apply bind_not_OutOfFuel; [apply scan_back_not_OutOfFuel; lia|].
  intros a _. apply bind_not_OutOfFuel; [apply rd_not_OutOfFuel|].
  discriminate.
Qed.
End Scan.

(** ** The child search *)

Lemma bytes_at_not_Abort (p : list ascii) (off n : Z) :
  bytes_at p off n <> Abort.
Proof. unfold bytes_at. destruct (_ && _); discriminate. Qed.

Lemma bytes_at_not_OutOfFuel (p : list ascii) (off n : Z) :
  bytes_at p off n <> OutOfFuel.
Proof. unfold bytes_at. destruct (_ && _); discriminate. Qed.

Section Find.
Variables (hostname : list ascii) (seg_start seg_end : Z).

Lemma strcmp_ALL_benign (d : option (list ascii)) :
  strcmp_ALL d <> Abort /\ strcmp_ALL d <> OutOfFuel.
Proof. destruct d; simpl; split; discriminate. Qed.

Lemma label_matches_benign (d : option (list ascii)) :
  label_matches d hostname seg_start seg_end <> Abort
  /\ label_matches d hostname seg_start seg_end <> OutOfFuel.
Proof.
  destruct d as [s|]; simpl; [|split; discriminate].
  destruct (_ =? _); [|split; discriminate].
  split; [apply bind_not_Abort; [apply bytes_at_not_Abort|]
         |apply bind_not_OutOfFuel; [apply bytes_at_not_OutOfFuel|]];
    discriminate.
Qed.

Lemma findTldNode_from_benign (children : list tldnode) : forall allNode,
  findTldNode_from children allNode hostname seg_start seg_end <> Abort
  /\ findTldNode_from children allNode hostname seg_start seg_end <> OutOfFuel.
Proof.
  induction children as [|child rest IH]; intros allNode; simpl;
    [split; discriminate|].
  assert (forall b : bool,
    (if b then findTldNode_from rest (Some child) hostname seg_start seg_end
     else hit <- label_matches (dom child) hostname seg_start seg_end ;;
          if hit then Ret (Some child)
          else findTldNode_from rest allNode hostname seg_start seg_end)
      <> Abort
    /\ (if b then findTldNode_from rest (Some child) hostname seg_start seg_end
        else hit <- label_matches (dom child) hostname seg_start seg_end ;;
             if hit then Ret (Some child)
             else findTldNode_from rest allNode hostname seg_start seg_end)
      <> OutOfFuel) as Hk.
  { intros [|]; [apply IH|].
    destruct (label_matches_benign (dom child)) as [M1 M2].
    split; [apply bind_not_Abort|apply bind_not_OutOfFuel]; auto;
      intros [|] _; try discriminate; apply IH. }
  destruct allNode as [a|]; simpl; [apply (Hk false)|].
  destruct (strcmp_ALL_benign (dom child)) as [S1 S2].
  split; [apply bind_not_Abort|apply bind_not_OutOfFuel]; auto;
    intros b _; apply Hk.
Qed.

(** The search returns one of the children it scans, or the wildcard
    child it already holds. *)
Lemma findTldNode_from_In (children : list tldnode) : forall allNode c,
  findTldNode_from children allNode hostname seg_start seg_end = Ret (Some c) ->
  In c children \/ allNode = Some c.
Proof.
  induction children as [|child rest IH]; intros allNode c H; simpl in H.
  - inversion H; auto.
  - bind_inv H. destruct a.
    + apply IH in H. destruct H as [H|H]; [left; now right|].
      inversion H; subst. left; now left.
    + bind_inv H. destruct a.
      * inversion H; subst. left; now left.
      * apply IH in H. destruct H as [H|H]; [left; now right|now right].
Qed.

Lemma findTldNode_In (parent c : tldnode) :
  findTldNode parent hostname seg_start seg_end = Ret (Some c) ->
  In c (subnodes parent).
Proof.
  intros H. apply findTldNode_from_In in H. now destruct H.
Qed.
End Find.

Lemma height_child (t c : tldnode) :
  In c (subnodes t) -> (height c < height t)%nat.
Proof.
  destruct t as [d a l]; simpl. intros H. apply Nat.lt_succ_r.
  induction l as [|x l IH]; simpl in *; [contradiction|].
  destruct H as [->|H]; [lia|]. specialize (IH H). lia.
Qed.

(** ** The descent loop *)

Section Descent.
Variable hostname : list ascii.

Lemma descend_not_Abort (fuel : nat) : forall tree seg_start seg_end,
  descend fuel hostname tree seg_start seg_end <> Abort.
Proof.
  induction fuel as [|fuel IH]; intros tree p e; simpl; [discriminate|].
  apply bind_not_Abort; [apply label_start_not_Abort|].
  intros s Hs. apply label_start_Ret in Hs. destruct Hs as (_ & Hdot & _).
  apply bind_not_Abort; [apply findTldNode_from_benign|].
  intros [subtree|] _; [|discriminate].
  destruct (only_child_is_exception subtree); [discriminate|].
  destruct (s =? 0) eqn:E0; [discriminate|].
  apply Z.eqb_neq in E0. rewrite (Hdot E0). simpl. apply IH.
Qed.

Lemma descend_not_OutOfFuel (fuel : nat) : forall tree seg_start seg_end,
  (height tree <= fuel)%nat ->
  descend fuel hostname tree seg_start seg_end <> OutOfFuel.
Proof.
  induction fuel as [|fuel IH]; intros tree p e Hh; simpl.
  - destruct tree; simpl in Hh; lia.
  - apply bind_not_OutOfFuel; [apply label_start_not_OutOfFuel|].
    intros s _.
    apply bind_not_OutOfFuel; [apply findTldNode_from_benign|].
    intros [subtree|] Hf; [|discriminate].
    destruct (only_child_is_exception subtree); [discriminate|].
    destruct (s =? 0); [discriminate|].
    apply bind_not_OutOfFuel; [apply rd_not_OutOfFuel|].
    intros c _. destruct (negb (is_dot c)); [discriminate|].
    apply IH. apply findTldNode_In, height_child in Hf. lia.
Qed.

(** When the loop is left by [break], [seg_start] is inside the host name
    and is its start or the position just after a dot. *)
Lemma descend_Matched (fuel : nat) : forall tree seg_start seg_end s,
  descend fuel hostname tree seg_start seg_end = Ret (Matched s) ->
  seg_start <= Z.of_nat (strlen hostname) ->
  0 <= s <= Z.of_nat (strlen hostname)
  /\ (s <> 0 -> rd hostname (s - 1) = Ret "."%char).
Proof.
  induction fuel as [|fuel IH]; intros tree p e s H Hp; simpl in H;
    [discriminate|].
  bind_inv H. apply label_start_Ret in Ha. destruct Ha as (B1 & B2 & B3).
  specialize (B3 Hp).
  bind_inv H. destruct a0 as [subtree|].
  - destruct (only_child_is_exception subtree).
    + inversion H; subst. split; [lia|assumption].
    + destruct (a =? 0); [discriminate|].
      bind_inv H. destruct (negb (is_dot a0)); [discriminate|].
      apply IH in H; [assumption|lia].
  - inversion H; subst. split; [lia|assumption].
Qed.
End Descent.

(** ** The resolver *)

Lemma last_skipn {A : Type} (l : list A) (d : A) : forall n,
  (n < length l)%nat -> last (skipn n l) d = last l d.
Proof.
  induction l as [|x l IH]; intros n Hn; simpl in Hn; [lia|].
  destruct n as [|n]; [reflexivity|]. simpl skipn.
  rewrite IH by lia. destruct l; [simpl in Hn; lia|reflexivity].
Qed.

Lemma existsb_nonempty {A : Type} (f : A -> bool) (l : list A) :
  existsb f l = true -> (0 < length l)%nat.
Proof. destruct l; simpl; [discriminate|lia]. Qed.

Lemma length_cstr_at (hostname : list ascii) (off : Z) :
  0 <= off <= Z.of_nat (strlen hostname) ->
  length (cstr_at hostname off) = (strlen hostname - Z.to_nat off)%nat.
Proof.
  intros H. unfold cstr_at. rewrite length_cstr, strlen_skipn; lia.
Qed.

(** The offset returned by the resolver lies inside the host name. *)
Lemma result_in_bounds (hostname : list ascii) (tree : tldnode)
    (drop_unknown off : Z) :
  getRegisteredDomainDropI hostname tree drop_unknown = Ret (Some off) ->
  0 <= off < Z.of_nat (strlen hostname).
Proof.
  unfold getRegisteredDomainDropI. intros H. bind_step H as c0 Hc0.
  destruct (is_dot c0 || is_nul c0); [discriminate|].
  bind_step H as c Hc. bind_step H as e He.
  destruct e as [s|]; simpl in H; [|discriminate].
  apply descend_Matched in He; [|destruct (is_dot c); lia].
  destruct He as [Hs Hdot]. bind_step H as has_dot Hd. destruct has_dot.
  - inversion H; subst off.
    unfold strchr_dot in Hd. destruct (_ && _); [|discriminate].
    inversion Hd as [E]. apply existsb_nonempty in E.
    rewrite length_cstr_at in E by lia. lia.
  - destruct ((s =? 0) || negb (drop_unknown =? 0)) eqn:E; [discriminate|].
    bind_step H as s' Hs'. inversion H; subst off.
    apply label_start_Ret in Hs'. lia.
Qed.

Lemma In_skipn_nth {A : Type} (d : A) : forall (n i : nat) (l : list A),
  (n <= i < length l)%nat -> In (nth i l d) (skipn n l).
Proof.
  induction n as [|n IH]; intros i l Hi.
  - simpl. apply nth_In. lia.
  - destruct l as [|x l]; simpl in Hi; [lia|].
    destruct i as [|i]; [lia|]. simpl. apply IH. lia.
Qed.

(** Every non-null result contains a dot character (which may be the
    trailing dot of the host name). *)
Lemma result_contains_dot (hostname : list ascii) (tree : tldnode)
    (drop_unknown off : Z) :
  getRegisteredDomainDropI hostname tree drop_unknown = Ret (Some off) ->
  In "."%char (cstr_at hostname off).
Proof.
  unfold getRegisteredDomainDropI. intros H. bind_step H as c0 Hc0.
  destruct (is_dot c0 || is_nul c0); [discriminate|].
  bind_step H as c Hc. bind_step H as e He.
  destruct e as [s|]; simpl in H; [|discriminate].
  apply descend_Matched in He; [|destruct (is_dot c); lia].
  destruct He as [Hs Hdot]. bind_step H as has_dot Hd. destruct has_dot.
  - inversion H; subst off.
    unfold strchr_dot in Hd. destruct (_ && _); [|discriminate].
    injection Hd as E. apply existsb_exists in E.
    destruct E as (x & Hin & Hx). apply is_dot_true in Hx. now subst x.
  - destruct ((s =? 0) || negb (drop_unknown =? 0)) eqn:E; [discriminate|].
    apply orb_false_iff in E. destruct E as [E _]. apply Z.eqb_neq in E.
    bind_step H as s' Hs'. inversion H; subst off.
    apply label_start_Ret in Hs'. destruct Hs' as (B & _ & _).
    pose proof (Hdot E) as Hr. apply rd_Ret in Hr. destruct Hr as [_ Hr].
    unfold cstr_at. rewrite cstr_skipn by lia. rewrite Hr.
    replace (nth (Z.to_nat (s - 1)) hostname NUL)
      with (nth (Z.to_nat (s - 1)) (cstr hostname) NUL).
    + apply In_skipn_nth. rewrite length_cstr. lia.
    + unfold cstr. rewrite nth_firstn.
      replace (Z.to_nat (s - 1) <? strlen hostname)%nat with true;
        [reflexivity|].
      symmetry. apply Nat.ltb_lt. lia.
Qed.

(** Claim C8: a host name that is empty or starts with a dot is answered
    with a null pointer, by a normal return, whatever the tree and the drop
    flag are. *)
Theorem invalid_hostname_noMatch (hostname : list ascii) (tree : tldnode)
    (drop_unknown : Z) :
  cstr hostname = [] \/ (exists rest, hostname = "."%char :: rest) ->
  getRegisteredDomainDrop hostname tree drop_unknown = Ret None
  /\ getRegisteredDomain hostname tree = Ret None.
Proof.
  intros H.
  assert (forall d, getRegisteredDomainDropI hostname tree d = Ret None) as K.
  { intros d. unfold getRegisteredDomainDropI.
    destruct H as [H|[rest ->]]; [|reflexivity].
    destruct hostname as [|c r]; [reflexivity|].
    unfold cstr in H. simpl in H.
    rewrite rd_in_bounds by (simpl length; lia). simpl.
    destruct (is_nul c); [|discriminate].
    now rewrite orb_true_r. }
  split; apply K.
Qed.

Lemma invalid_hostname_noMatch_witness :
  getRegisteredDomainDrop (cs ".example.com") scenario_tree 1 = Ret None
  /\ getRegisteredDomain (cs ".example.com") scenario_tree = Ret None.
Proof.
  apply (invalid_hostname_noMatch (cs ".example.com") scenario_tree 1).
  right. exists (cs "example.com"). reflexivity.
Defined.

(** Claim C10: the resolver never reaches [abort()].  Whenever the loop is
    about to move to the previous label, [seg_start] is after the start of
    the host name and the character before it is a dot; the loop also
    terminates within the height of the tree. *)
Theorem abort_unreachable (hostname : list ascii) (tree : tldnode)
    (drop_unknown : Z) :
  getRegisteredDomainDrop hostname tree drop_unknown <> Abort
  /\ getRegisteredDomainDrop hostname tree drop_unknown <> OutOfFuel
  /\ (forall fuel t seg_start seg_end,
        descend fuel hostname t seg_start seg_end <> Abort)
  /\ (forall seg_start s,
        label_start hostname seg_start = Ret s -> s <> 0 ->
        0 < s /\ rd hostname (s - 1) = Ret "."%char).
Proof.
  split; [|split; [|split]].
  - unfold getRegisteredDomainDrop, getRegisteredDomainDropI.
    apply bind_not_Abort; [apply rd_not_Abort|]. intros c0 _.
    destruct (is_dot c0 || is_nul c0); [discriminate|].
    apply bind_not_Abort; [apply rd_not_Abort|]. intros c _.
    apply bind_not_Abort; [apply descend_not_Abort|].
    intros [s|] _; simpl; [|discriminate].
    unfold strchr_dot. destruct (_ && _); simpl; [|discriminate].
    destruct (existsb _ _); [discriminate|].
    destruct (_ || _); [discriminate|].
    apply bind_not_Abort; [apply label_start_not_Abort|]. discriminate.
  - unfold getRegisteredDomainDrop, getRegisteredDomainDropI.
    apply bind_not_OutOfFuel; [apply rd_not_OutOfFuel|]. intros c0 _.
    destruct (is_dot c0 || is_nul c0); [discriminate|].
    apply bind_not_OutOfFuel; [apply rd_not_OutOfFuel|]. intros c _.
    apply bind_not_OutOfFuel; [apply descend_not_OutOfFuel; lia|].
    intros [s|] _; simpl; [|discriminate].
    unfold strchr_dot. destruct (_ && _); simpl; [|discriminate].
    destruct (existsb _ _); [discriminate|].
    destruct (_ || _); [discriminate|].
    apply bind_not_OutOfFuel; [apply label_start_not_OutOfFuel|]. discriminate.
  - intros fuel t p e. apply descend_not_Abort.
  - intros p s H Hs. apply label_start_Ret in H.
    destruct H as (H1 & H2 & _). split; [lia|auto].
Qed.

Lemma abort_unreachable_witness :
  getRegisteredDomainDrop (cs "www.example.com") scenario_tree 0 <> Abort
  /\ 0 < 12 /\ rd (cs "www.example.com") (12 - 1) = Ret "."%char.
Proof.
  destruct (abort_unreachable (cs "www.example.com") scenario_tree 0)
    as (H1 & _ & _ & H2).
  split; [exact H1|].
  apply (H2 15 12); [reflexivity|discriminate].
Defined.

(** Claim C9: a non-null result points into the host name, so the string it
    denotes is a non-empty suffix of the host name that runs to its end; if
    the host name ends with a dot, so does the result. *)
Theorem result_is_suffix (hostname : list ascii) (tree : tldnode)
    (drop_unknown off : Z) :
  getRegisteredDomainDrop hostname tree drop_unknown = Ret (Some off) ->
  0 <= off < Z.of_nat (strlen hostname)
  /\ cstr_at hostname off = skipn (Z.to_nat off) (cstr hostname)
  /\ (exists pre, cstr hostname = pre ++ cstr_at hostname off)
  /\ (last (cstr hostname) NUL = "."%char ->
      last (cstr_at hostname off) NUL = "."%char).
Proof.
  intros H. apply result_in_bounds in H.
  assert (cstr_at hostname off = skipn (Z.to_nat off) (cstr hostname)) as E.
  { unfold cstr_at. apply cstr_skipn. lia. }
  split; [assumption|]. split; [assumption|]. rewrite E. split.
  - exists (firstn (Z.to_nat off) (cstr hostname)).
    symmetry. apply firstn_skipn.
  - intros Hl. rewrite last_skipn; [assumption|].
    rewrite length_cstr. lia.
Qed.

Lemma result_is_suffix_witness :
  0 <= 12 < Z.of_nat (strlen (cs "www.example.com."))
  /\ cstr_at (cs "www.example.com.") 12
     = skipn (Z.to_nat 12) (cstr (cs "www.example.com."))
  /\ (exists pre, cstr (cs "www.example.com.")
                  = pre ++ cstr_at (cs "www.example.com.") 12)
  /\ (last (cstr (cs "www.example.com.")) NUL = "."%char ->
      last (cstr_at (cs "www.example.com.") 12) NUL = "."%char).
Proof.
  apply (result_is_suffix (cs "www.example.com.") scenario_tree 0 12).
  vm_compute. reflexivity.
Defined.

(** ** Exact labels before the wildcard *)

Lemma list_ascii_eqb_true (a b : list ascii) :
  list_ascii_eqb a b = true <-> a = b.
Proof.
  unfold list_ascii_eqb. destruct (list_eq_dec ascii_dec a b); split;
    congruence.
Qed.

Lemma list_ascii_eqb_false (a b : list ascii) :
  list_ascii_eqb a b = false <-> a <> b.
Proof.
  unfold list_ascii_eqb. destruct (list_eq_dec ascii_dec a b); split;
    congruence.
Qed.

Section ExactMatch.
Variables (hostname : list ascii) (seg_start seg_end : Z).
Hypothesis window_ok : 0 <= seg_start <= seg_end.
Hypothesis window_in : seg_end <= Z.of_nat (length hostname).
Hypothesis window_size : seg_end - seg_start < 2 ^ 64.

Lemma length_window :
  Z.of_nat (length (window hostname seg_start seg_end)) = seg_end - seg_start.
Proof.
  unfold window. rewrite length_firstn, length_skipn. lia.
Qed.

(** On a proper window the label test is the comparison of the node's
    label with the characters of the window. *)
Lemma label_matches_window (d : list ascii) :
  label_matches (Some d) hostname seg_start seg_end
  = Ret (list_ascii_eqb (cstr d) (window hostname seg_start seg_end)).
Proof.
  unfold label_matches, size_t_of.
  rewrite Z.mod_small by lia.
  destruct (seg_end - seg_start =? Z.of_nat (strlen d)) eqn:E.
  - apply Z.eqb_eq in E. unfold bytes_at.
    replace ((0 <=? seg_start) && (0 <=? Z.of_nat (strlen d))
             && (seg_start + Z.of_nat (strlen d)
                 <=? Z.of_nat (length hostname) + 1)) with true.
    2:{ symmetry. rewrite !andb_true_iff, !Z.leb_le. lia. }
    simpl. f_equal. f_equal. unfold window.
    rewrite E, Nat2Z.id, skipn_app, firstn_app, length_skipn.
    replace (strlen d - (length hostname - Z.to_nat seg_start))%nat
      with O by lia.
    rewrite firstn_O, app_nil_r. reflexivity.
  - apply Z.eqb_neq in E. f_equal. symmetry.
    apply list_ascii_eqb_false. intros Heq.
    apply (f_equal (@length ascii)) in Heq.
    rewrite length_cstr in Heq. pose proof length_window. lia.
Qed.

Lemma findTldNode_from_exact (children : list tldnode) : forall allNode,
  Forall (fun n => dom n <> None) children ->
  (exists c, In c children
             /\ node_label c = Some (window hostname seg_start seg_end))
  \/ (exists a, allNode = Some a
                /\ node_label a = Some (window hostname seg_start seg_end)) ->
  exists c',
    findTldNode_from children allNode hostname seg_start seg_end
    = Ret (Some c')
    /\ node_label c' = Some (window hostname seg_start seg_end)
    /\ (In c' children \/ allNode = Some c').
Proof.
  induction children as [|child rest IH]; intros allNode Hdom Hex.
  - destruct Hex as [(c & [] & _)|(a & -> & Ha)].
    exists a. simpl. auto.
  - inversion Hdom as [|x l Hd Hrest]; subst.
    destruct (dom child) as [d|] eqn:Ed; [clear Hd|congruence].
    assert (node_label child = Some (cstr d)) as Hlab
      by (unfold node_label; now rewrite Ed).
    (* what happens when [child] is tested against the label *)
    assert (forall allNode',
      (exists c, In c (child :: rest)
                 /\ node_label c = Some (window hostname seg_start seg_end))
      \/ (exists a,
             allNode' = Some a
             /\ node_label a = Some (window hostname seg_start seg_end)) ->
      exists c',
        (hit <- label_matches (Some d) hostname seg_start seg_end ;;
         if hit then Ret (Some child)
         else findTldNode_from rest allNode' hostname seg_start seg_end)
        = Ret (Some c')
        /\ node_label c' = Some (window hostname seg_start seg_end)
        /\ (In c' (child :: rest) \/ allNode' = Some c')) as Htest.
    { intros allNode' Hex'. rewrite label_matches_window. simpl.
      destruct (list_ascii_eqb (cstr d) (window hostname seg_start seg_end))
        eqn:El.
      - apply list_ascii_eqb_true in El. exists child.
        rewrite Hlab, El. simpl. auto.
      - apply list_ascii_eqb_false in El.
        destruct (IH allNode' Hrest) as (c' & H1 & H2 & H3).
        { destruct Hex' as [(c & [<-|Hin] & Hc)|Hr]; eauto.
          rewrite Hlab in Hc. congruence. }
        exists c'. simpl. intuition. }
    simpl. rewrite Ed. destruct allNode as [a|]; simpl.
    + apply Htest, Hex.
    + destruct (list_ascii_eqb (cstr d) ALL) eqn:Eall.
      * destruct (IH (Some child) Hrest) as (c' & H1 & H2 & H3).
        { destruct Hex as [(c & [<-|Hin] & Hc)|(a & Ha & _)];
            [right|left|discriminate]; eauto. }
        exists c'. split; [assumption|]. split; [assumption|].
        left. destruct H3 as [H3|H3]; [now right|left; congruence].
      * apply Htest, Hex.
Qed.
End ExactMatch.

(** Claim C5: if some child of the parent carries exactly the label in the
    window, the search returns a child with that label; unless the label is
    itself the asterisk, the result is therefore not a wildcard child,
    wherever the wildcard stands among the children. *)
Theorem exact_child_wins (parent : tldnode) (hostname : list ascii)
    (seg_start seg_end : Z) (c : tldnode) :
  0 <= seg_start <= seg_end ->
  seg_end <= Z.of_nat (length hostname) ->
  seg_end - seg_start < 2 ^ 64 ->
  Forall (fun n => dom n <> None) (subnodes parent) ->
  In c (subnodes parent) ->
  node_label c = Some (window hostname seg_start seg_end) ->
  exists c',
    findTldNode parent hostname seg_start seg_end = Ret (Some c')
    /\ In c' (subnodes parent)
    /\ node_label c' = Some (window hostname seg_start seg_end)
    /\ (window hostname seg_start seg_end <> ALL -> node_label c' <> Some ALL).
Proof.
  intros H1 H2 H3 Hdom Hin Hc.
  destruct (findTldNode_from_exact hostname seg_start seg_end H1 H2 H3
              (subnodes parent) None Hdom) as (c' & F1 & F2 & F3).
  { left. eauto. }
  exists c'. split; [exact F1|]. split; [|split].
  - destruct F3 as [F3|F3]; [assumption|discriminate].
  - assumption.
  - intros Hne. rewrite F2. congruence.
Qed.

Lemma exact_child_wins_witness :
  exists c',
    findTldNode uk_subtree (cs "parliament.uk") 0 10 = Ret (Some c')
    /\ In c' (subnodes uk_subtree)
    /\ node_label c' = Some (window (cs "parliament.uk") 0 10)
    /\ (window (cs "parliament.uk") 0 10 <> ALL -> node_label c' <> Some ALL).
Proof.
  apply (exact_child_wins uk_subtree (cs "parliament.uk") 0 10
           (mk_tldnode (Some (cs "parliament")) ATTR_NULL
              [mk_tldnode (Some []) THIS []])).
  - lia.
  - simpl. lia.
  - reflexivity.
  - repeat constructor; discriminate.
  - simpl. right. left. reflexivity.
  - reflexivity.
Defined.

(** ** Exceptions and the scenario rule set *)

Lemma scenario_tree_loaded :
  loadTldTree scenario_tldString = Ret scenario_tree
  /\ loadTldTree scenario_tldString_no_fallback = Ret scenario_tree_no_fallback.
Proof. split; vm_compute; reflexivity. Qed.

Lemma com_tree_loaded : loadTldTree (cs "root(1:com)") = Ret com_tree.
Proof. vm_compute. reflexivity. Qed.

(** Claim C4: when the subtree found for the current label has exactly one
    child and that child is marked as an exception, the loop is left at once
    with the start of the current label as [seg_start], which is returned as
    the left edge of the result when a dot follows it; on the scenario rule
    set, [parliament.uk] is answered with [parliament.uk], not with [uk]. *)
Theorem exception_stops_descent :
  (forall fuel hostname tree seg_start seg_end s subtree c,
      label_start hostname seg_start = Ret s ->
      findTldNode tree hostname s seg_end = Ret (Some subtree) ->
      subnodes subtree = [c] ->
      attr c = THIS ->
      descend (S fuel) hostname tree seg_start seg_end = Ret (Matched s)
      /\ forall drop_unknown,
           strchr_dot hostname s = Ret true ->
           finish hostname drop_unknown (Matched s) = Ret (Some s))
  /\ loadTldTree scenario_tldString = Ret scenario_tree
  /\ getRegisteredDomain (cs "parliament.uk") scenario_tree = Ret (Some 0)
  /\ result_string (cs "parliament.uk")
       (getRegisteredDomain (cs "parliament.uk") scenario_tree)
     = Ret (Some (cs "parliament.uk"))
  /\ result_string (cs "parliament.uk")
       (getRegisteredDomain (cs "parliament.uk") scenario_tree)
     <> Ret (Some (cs "uk")).
Proof.
  split; [|split; [apply scenario_tree_loaded|]].
  - intros fuel hostname tree p e s subtree c Hs Hf Hk Ha. split.
    + simpl. rewrite Hs. simpl. rewrite Hf. simpl.
      unfold only_child_is_exception. now rewrite Hk, Ha.
    + intros d Hd. simpl. now rewrite Hd.
  - split; [vm_compute; reflexivity|].
    split; [vm_compute; reflexivity|].
    vm_compute. discriminate.
Qed.

Lemma exception_stops_descent_witness :
  descend 1 (cs "parliament.uk") uk_subtree 9 10 = Ret (Matched 0)
  /\ forall drop_unknown,
       strchr_dot (cs "parliament.uk") 0 = Ret true ->
       finish (cs "parliament.uk") drop_unknown (Matched 0) = Ret (Some 0).
Proof.
  destruct exception_stops_descent as [H _].
  apply (H O (cs "parliament.uk") uk_subtree 9 10 0
           (mk_tldnode (Some (cs "parliament")) ATTR_NULL
              [mk_tldnode (Some []) THIS []])
           (mk_tldnode (Some []) THIS [])); reflexivity.
Defined.

(** ** Host names with a trailing dot *)


(** Claim C1, evaluated on the code: with [com] as the only rule,
    [example.com] is answered with [example.com], but [example.com.] with
    [com.].  After [seg_end] has been moved onto the trailing dot,
    [seg_start] starts on that dot and is stepped past it, so the first
    window is [12, 11) and no child matches it. *)
Theorem trailing_dot_changes_result :
  loadTldTree (cs "root(1:com)") = Ret com_tree
  /\ getRegisteredDomain (cs "example.com") com_tree = Ret (Some 0)
  /\ result_string (cs "example.com")
       (getRegisteredDomain (cs "example.com") com_tree)
     = Ret (Some (cs "example.com"))
  /\ getRegisteredDomain (cs "example.com.") com_tree = Ret (Some 8)
  /\ result_string (cs "example.com.")
       (getRegisteredDomain (cs "example.com.") com_tree)
     = Ret (Some (cs "com."))
  /\ getRegisteredDomainDrop (cs "example.com") com_tree 1 = Ret (Some 0)
  /\ getRegisteredDomainDrop (cs "example.com.") com_tree 1 = Ret None
  /\ label_start (cs "example.com.") 11 = Ret 12
  /\ findTldNode com_tree (cs "example.com.") 12 11 = Ret None
  /\ getRegisteredDomain (cs "www.example.com") scenario_tree = Ret (Some 4)
  /\ getRegisteredDomain (cs "www.example.com.") scenario_tree = Ret (Some 12).
Proof. repeat split; vm_compute; reflexivity. Qed.

(** Claim C2, evaluated on the code: for [example.com.] and the rule [com]
    the result is [com.], one label followed by the trailing dot; with a
    top-level wildcard, [a.b.] is answered with [b.] even when unknown
    suffixes are dropped.  Neither result has a dot between two labels. *)
Theorem single_label_result :
  loadTldTree (cs "root(1:com)") = Ret com_tree
  /\ result_string (cs "example.com.")
    (getRegisteredDomain (cs "example.com.") com_tree)
  = Ret (Some (cs "com."))
  /\ has_embedded_dot (cs "com.") = false
  /\ result_string (cs "a.b.")
       (getRegisteredDomainDrop (cs "a.b.") scenario_tree 1)
     = Ret (Some (cs "b."))
  /\ has_embedded_dot (cs "b.") = false
  /\ has_embedded_dot (cs "example.com") = true.
Proof. repeat split; vm_compute; reflexivity. Qed.

(** ** Unknown top-level labels *)

(** Claim C3 as stated fails: with the top-level wildcard in the rule set,
    [xx] matches it and [something.xx] is returned even when unknown
    suffixes are dropped. *)
Lemma unknown_tld_with_wildcard :
  loadTldTree scenario_tldString = Ret scenario_tree
  /\ result_string (cs "something.xx")
       (getRegisteredDomainDrop (cs "something.xx") scenario_tree 1)
     = Ret (Some (cs "something.xx"))
  /\ result_string (cs "something.xx")
       (getRegisteredDomainDrop (cs "something.xx") scenario_tree 1)
     <> Ret None.
Proof.
  split; [apply scenario_tree_loaded|].
  split; [vm_compute; reflexivity|vm_compute; discriminate].
Qed.

(** Claim C3, as amended: when no child of the root matches [xx], in
    particular on the scenario rule set without the top-level wildcard,
    [something.xx] is answered with a null pointer if unknown suffixes are
    dropped and with [something.xx] otherwise; with the top-level wildcard
    the answer is [something.xx] for both values of the flag. *)
Theorem unknown_tld_policy :
  (forall tree drop_unknown,
      findTldNode tree (cs "something.xx") 10 12 = Ret None ->
      result_string (cs "something.xx")
        (getRegisteredDomainDrop (cs "something.xx") tree drop_unknown)
      = Ret (if drop_unknown =? 0 then Some (cs "something.xx") else None))
  /\ loadTldTree scenario_tldString_no_fallback = Ret scenario_tree_no_fallback
  /\ result_string (cs "something.xx")
       (getRegisteredDomainDrop (cs "something.xx") scenario_tree_no_fallback 1)
     = Ret None
  /\ result_string (cs "something.xx")
       (getRegisteredDomainDrop (cs "something.xx") scenario_tree_no_fallback 0)
     = Ret (Some (cs "something.xx"))
  /\ (forall drop_unknown,
        result_string (cs "something.xx")
          (getRegisteredDomainDrop (cs "something.xx") scenario_tree
             drop_unknown)
        = Ret (Some (cs "something.xx"))).
Proof.
  split; [|split; [apply scenario_tree_loaded|]].
  - intros tree d Hf.
    unfold getRegisteredDomainDrop, getRegisteredDomainDropI.
    destruct tree as [dm a l]. simpl height.
    change (rd (cs "something.xx") 0) with (@Ret ascii "s"%char).
    cbn [bind]. change (is_dot "s" || is_nul "s") with false. cbv iota.
    change (Z.of_nat (strlen (cs "something.xx"))) with 12.
    change (rd (cs "something.xx") (12 - 1)) with (@Ret ascii "x"%char).
    cbn [bind]. change (is_dot "x") with false. cbv iota.
    cbn [descend].
    change (label_start (cs "something.xx") 12) with (@Ret Z 10).
    cbn [bind]. rewrite Hf. cbn [bind finish].
    change (strchr_dot (cs "something.xx") 10) with (Ret false).
    cbn [bind]. change (10 =? 0) with false. cbn [orb].
    destruct (d =? 0); reflexivity.
  - split; [vm_compute; reflexivity|].
    split; [vm_compute; reflexivity|].
    intros d. unfold getRegisteredDomainDrop, getRegisteredDomainDropI.
    change (rd (cs "something.xx") 0) with (@Ret ascii "s"%char).
    cbn [bind]. change (is_dot "s" || is_nul "s") with false. cbv iota.
    change (Z.of_nat (strlen (cs "something.xx"))) with 12.
    change (rd (cs "something.xx") (12 - 1)) with (@Ret ascii "x"%char).
    cbn [bind]. change (is_dot "x") with false. cbv iota.
    change (descend (height scenario_tree) (cs "something.xx") scenario_tree
              12 12) with (Ret (Matched 0)).
    cbn [bind finish].
    change (strchr_dot (cs "something.xx") 0) with (Ret true).
    reflexivity.
Qed.

Lemma unknown_tld_policy_witness :
  result_string (cs "something.xx")
    (getRegisteredDomainDrop (cs "something.xx") com_tree 1)
  = Ret (if 1 =? 0 then Some (cs "something.xx") else None).
Proof.
  destruct unknown_tld_policy as [H _].
  apply (H com_tree 1). reflexivity.
Defined.

(** ** The decoder *)

Lemma readTldString_loop_unfold (fuel : nat) (s : list ascii) (len : Z)
    (node : tldnode) (start state pos : Z) :
  readTldString_loop (S fuel) s len node start state pos =
  (c <- rd s pos ;;
   let next node start state :=
     if pos + 1 <? len
     then readTldString_loop fuel s len node start state (pos + 1)
     else Ret (node, pos + 1) in
   if state =? 0 then
     if is_delim c then
       let lenc :=
         if attr_is_THIS (attr node) then pos - start - 1 else pos - start in
       d <- bytes_at s start lenc ;;
       let node := set_dom node d in
       if Ascii.eqb c "(" then next node pos 1
       else Ret (node, pos)
     else if Ascii.eqb c "!" then next (set_attr node THIS) start state
     else next node start state
   else if state =? 1 then
     if Ascii.eqb c ":" then
       buf <- bytes_at s (start + 1) (pos - start - 1) ;;
       n <- atoi buf ;;
       r <- read_children
              (fun p => readTldString_loop fuel s len zero_node p 0 p)
              (Z.to_nat (to_unsigned n)) pos ;;
       Ret (set_subnodes node (fst r), snd r + 1)
     else next node start state
   else next node start state).
Proof. reflexivity. Qed.

Lemma rd_middle (pre : list ascii) (c : ascii) (rest : list ascii) :
  rd (pre ++ c :: rest) (Z.of_nat (length pre)) = Ret c.
Proof.
  rewrite rd_in_bounds by (rewrite length_app; simpl; lia).
  now rewrite Nat2Z.id, nth_middle.
Qed.

Lemma bytes_at_middle (pre mid post : list ascii) (k : Z) :
  0 <= k <= Z.of_nat (length mid) ->
  bytes_at (pre ++ mid ++ post) (Z.of_nat (length pre)) k
  = Ret (firstn (Z.to_nat k) mid).
Proof.
  intros Hk. unfold bytes_at.
  replace ((0 <=? Z.of_nat (length pre)) && (0 <=? k)
           && (Z.of_nat (length pre) + k
               <=? Z.of_nat (length (pre ++ mid ++ post)) + 1)) with true.
  2:{ symmetry. rewrite !andb_true_iff, !Z.leb_le, !length_app. lia. }
  f_equal. rewrite Nat2Z.id, <- !app_assoc.
  rewrite skipn_app, skipn_all, Nat.sub_diag. simpl.
  rewrite firstn_app. replace (Z.to_nat k - length mid)%nat with O by lia.
  now rewrite firstn_O, app_nil_r.
Qed.

Lemma skip_inert (s : list ascii) (chars : list ascii) :
  forall fuel node start state pos pre post,
    s = pre ++ chars ++ post ->
    post <> [] ->
    pos = Z.of_nat (length pre) ->
    state = 0 \/ state = 1 ->
    forallb (inert state) chars = true ->
    (length chars <= fuel)%nat ->
    readTldString_loop fuel s (Z.of_nat (length s)) node start state pos
    = readTldString_loop (fuel - length chars) s (Z.of_nat (length s)) node
        start state (pos + Z.of_nat (length chars)).
Proof.
  induction chars as [|c chars IH];
    intros fuel node start state pos pre post Hs Hpost Hpos Hst Hin Hfuel.
  - simpl. now rewrite Nat.sub_0_r, Z.add_0_r.
  - simpl in Hin. apply andb_prop in Hin. destruct Hin as [Hc Hin].
    destruct fuel as [|fuel]; [simpl in Hfuel; lia|].
    rewrite readTldString_loop_unfold.
    assert (rd s pos = Ret c) as ->
      by (subst s pos; simpl; apply rd_middle).
    assert ((pos + 1 <? Z.of_nat (length s)) = true) as Hlt.
    { apply Z.ltb_lt. subst s pos. rewrite !length_app. simpl length.
      destruct post; [congruence|simpl length; lia]. }
    assert (readTldString_loop fuel s (Z.of_nat (length s)) node start state
              (pos + 1)
            = readTldString_loop (S fuel - length (c :: chars)) s
                (Z.of_nat (length s)) node start state
                (pos + Z.of_nat (length (c :: chars)))) as Hnext.
    { rewrite (IH fuel node start state (pos + 1) (pre ++ [c]) post);
        try assumption.
      - simpl length. f_equal; lia.
      - rewrite <- app_assoc. exact Hs.
      - rewrite length_app. simpl. lia.
      - simpl in Hfuel. lia. }
    cbn [bind]. cbv zeta. rewrite Hlt.
    unfold inert in Hc. destruct Hst as [-> | ->].
    + change (0 =? 0) with true in *. cbv iota in *.
      unfold label_char in Hc. apply andb_prop in Hc. destruct Hc as [H1 H2].
      apply negb_true_iff in H1, H2. rewrite H1, H2. exact Hnext.
    + change (1 =? 0) with false in *. change (1 =? 1) with true.
      cbv iota in *. apply negb_true_iff in Hc. rewrite Hc. exact Hnext.
Qed.

(** Decimal counts *)

Lemma digit_code (c : ascii) :
  is_digit c = true -> (48 <= nat_of_ascii c <= 57)%nat.
Proof.
  unfold is_digit, digit_val.
  destruct ((48 <=? Z.of_nat (nat_of_ascii c))
            && (Z.of_nat (nat_of_ascii c) <=? 57)) eqn:E; [|discriminate].
  intros _. apply andb_prop in E. destruct E as [E1 E2].
  apply Z.leb_le in E1, E2. lia.
Qed.

Lemma digit_not (c d : ascii) :
  is_digit c = true -> (nat_of_ascii d < 48)%nat -> Ascii.eqb c d = false.
Proof.
  intros Hc Hd. apply digit_code in Hc. apply Ascii.eqb_neq. intros ->. lia.
Qed.

Lemma digit_not_colon (c : ascii) :
  is_digit c = true -> Ascii.eqb c ":" = false.
Proof.
  intros Hc. apply digit_code in Hc. apply Ascii.eqb_neq. intros ->.
  change (nat_of_ascii ":") with 58%nat in Hc. lia.
Qed.

Lemma digit_not_space (c : ascii) : is_digit c = true -> is_space c = false.
Proof.
  intros Hc. apply digit_code in Hc. unfold is_space.
  apply orb_false_iff. split.
  - apply Nat.eqb_neq. lia.
  - apply andb_false_iff. right. apply Nat.leb_gt. lia.
Qed.

Lemma cstr_digits (cnt : list ascii) :
  forallb is_digit cnt = true -> cstr cnt = cnt.
Proof.
  unfold cstr. induction cnt as [|c r IH]; simpl; [reflexivity|].
  intros H. apply andb_prop in H. destruct H as [Hc Hr].
  unfold is_nul. rewrite (digit_not c NUL Hc) by (vm_compute; lia).
  simpl. f_equal. auto.
Qed.

Lemma atoi_count (cnt : list ascii) (n : nat) :
  count_ok cnt n = true ->
  atoi cnt = Ret (Z.of_nat n) /\ Z.to_nat (to_unsigned (Z.of_nat n)) = n.
Proof.
  unfold count_ok. rewrite !andb_true_iff.
  intros [[Hd Hv] Hmax]. apply Z.eqb_eq in Hv. apply Z.leb_le in Hmax.
  unfold INT_MAX in Hmax. split.
  - unfold atoi. rewrite (cstr_digits _ Hd).
    assert (match skip_spaces cnt with
            | [] => 0
            | c :: r =>
                if Ascii.eqb c "-" then - atoi_digits r 0
                else if Ascii.eqb c "+" then atoi_digits r 0
                else atoi_digits (skip_spaces cnt) 0
            end = Z.of_nat n) as ->.
    { destruct cnt as [|c r]; [exact Hv|].
      simpl in Hd. apply andb_prop in Hd. destruct Hd as [Hc _].
      simpl skip_spaces. rewrite (digit_not_space c Hc).
      rewrite (digit_not c "-" Hc) by (vm_compute; lia).
      rewrite (digit_not c "+" Hc) by (vm_compute; lia). exact Hv. }
    replace ((INT_MIN <=? Z.of_nat n) && (Z.of_nat n <=? INT_MAX)) with true;
      [reflexivity|].
    symmetry. rewrite andb_true_iff, !Z.leb_le. unfold INT_MIN, INT_MAX. lia.
  - unfold to_unsigned. rewrite Z.mod_small by lia. apply Nat2Z.id.
Qed.

Section DecodeSteps.
Variable s : list ascii.

(** Reading the run of a node: the mark, if any, and the label. *)
Lemma scan_run (m : bool) (l : list ascii) (fuel : nat)
    (pre post : list ascii) :
  s = pre ++ run m l ++ post ->
  post <> [] ->
  forallb label_char l = true ->
  (length (run m l) <= fuel)%nat ->
  readTldString_loop fuel s (Z.of_nat (length s)) zero_node
    (Z.of_nat (length pre)) 0
    (Z.of_nat (length pre))
  = readTldString_loop (fuel - length (run m l)) s (Z.of_nat (length s))
      (set_attr zero_node (mark_attr m)) (Z.of_nat (length pre)) 0
      (Z.of_nat (length pre) + Z.of_nat (length (run m l))).
Proof.
  intros Hs Hpost Hl Hfuel. destruct m; unfold run in *.
  - destruct fuel as [|fuel]; [simpl in Hfuel; lia|].
    rewrite readTldString_loop_unfold.
    assert (rd s (Z.of_nat (length pre)) = Ret "!"%char) as ->
      by (rewrite Hs; simpl; apply rd_middle).
    assert ((Z.of_nat (length pre) + 1 <? (Z.of_nat (length s))) = true) as Hlt.
    { apply Z.ltb_lt. rewrite Hs, !length_app. simpl length.
      destruct post; [congruence|simpl length; lia]. }
    cbn [bind]. cbv zeta. rewrite Hlt.
    change (0 =? 0) with true. change (is_delim "!") with false.
    change (Ascii.eqb "!" "!") with true. cbv iota.
    rewrite (skip_inert s l fuel _ _ 0 _ (pre ++ ["!"%char]) post);
      try assumption; try (simpl in Hfuel; lia); try (now left).
    + cbn [length]. f_equal; lia.
    + rewrite Hs. reassoc.
    + rewrite length_app. simpl. lia.
  - rewrite (skip_inert s l fuel _ _ 0 _ pre post);
      try assumption; try reflexivity. now left.
Qed.

(** The delimiter that ends the run. *)
Lemma at_delimiter (m : bool) (l : list ascii) (d : ascii) (fuel : nat)
    (pre post : list ascii) :
  s = pre ++ run m l ++ d :: post ->
  is_delim d = true ->
  let pos := Z.of_nat (length pre) + Z.of_nat (length (run m l)) in
  let node := mk_tldnode (Some (copied_label m l)) (mark_attr m) [] in
  readTldString_loop (S fuel) s (Z.of_nat (length s))
    (set_attr zero_node (mark_attr m))
    (Z.of_nat (length pre)) 0 pos
  = if Ascii.eqb d "("
    then if pos + 1 <? (Z.of_nat (length s))
         then readTldString_loop fuel s (Z.of_nat (length s)) node pos 1
                (pos + 1)
         else Ret (node, pos + 1)
    else Ret (node, pos).
Proof.
  intros Hs Hd pos node. rewrite readTldString_loop_unfold.
  assert (rd s pos = Ret d) as ->.
  { unfold pos. rewrite Hs, app_assoc, <- Nat2Z.inj_add, <- length_app.
    apply rd_middle. }
  cbn [bind]. cbv zeta. change (0 =? 0) with true. cbv iota. rewrite Hd.
  assert (bytes_at s (Z.of_nat (length pre))
            (if attr_is_THIS (attr (set_attr zero_node (mark_attr m)))
             then pos - Z.of_nat (length pre) - 1
             else pos - Z.of_nat (length pre))
          = Ret (copied_label m l)) as ->.
  { rewrite Hs. unfold pos, copied_label.
    destruct m; simpl attr_is_THIS; cbv iota;
      (rewrite bytes_at_middle; [f_equal; f_equal|]);
      unfold run; simpl length; lia. }
  reflexivity.
Qed.

(** The colon that ends the count. *)
Lemma at_colon (node : tldnode) (cnt : list ascii) (n : nat) (fuel : nat)
    (pre post : list ascii) (start pos : Z) :
  s = pre ++ "("%char :: cnt ++ ":"%char :: post ->
  count_ok cnt n = true ->
  start = Z.of_nat (length pre) ->
  pos = start + 1 + Z.of_nat (length cnt) ->
  readTldString_loop (S fuel) s (Z.of_nat (length s)) node start 1 pos
  = (r <- read_children
            (fun p =>
               readTldString_loop fuel s (Z.of_nat (length s)) zero_node p 0 p)
            n pos ;;
     Ret (set_subnodes node (fst r), snd r + 1)).
Proof.
  intros Hs Hc Hstart Hpos. rewrite readTldString_loop_unfold.
  assert (rd s pos = Ret ":"%char) as ->.
  { rewrite Hpos, Hstart, Hs.
    replace (pre ++ "("%char :: cnt ++ ":"%char :: post)
      with ((pre ++ "("%char :: cnt) ++ ":"%char :: post) by reassoc.
    replace (Z.of_nat (length pre) + 1 + Z.of_nat (length cnt))
      with (Z.of_nat (length (pre ++ "("%char :: cnt))) by lengths.
    apply rd_middle. }
  cbn [bind]. cbv zeta. change (1 =? 0) with false. change (1 =? 1) with true.
  change (Ascii.eqb ":" ":") with true. cbv iota.
  assert (bytes_at s (start + 1) (pos - start - 1) = Ret cnt) as ->.
  { rewrite Hpos, Hstart, Hs.
    replace (pre ++ "("%char :: cnt ++ ":"%char :: post)
      with ((pre ++ ["("%char]) ++ cnt ++ ":"%char :: post) by reassoc.
    replace (Z.of_nat (length pre) + 1)
      with (Z.of_nat (length (pre ++ ["("%char]))) by lengths.
    rewrite bytes_at_middle by lengths.
    f_equal.
    replace (Z.to_nat _) with (length cnt) by lengths.
    apply firstn_all. }
  destruct (atoi_count cnt n Hc) as [Ha Hn].
  cbn [bind]. rewrite Ha. cbn [bind]. rewrite Hn. reflexivity.
Qed.
End DecodeSteps.

Lemma read_children_S (read_child : Z -> outcome (tldnode * Z)) (n : nat)
    (pos : Z) :
  read_children read_child (S n) pos
  = (r <- read_child (pos + 1) ;;
     rs <- read_children read_child n (snd r) ;;
     Ret (fst r :: fst rs, snd rs)).
Proof. reflexivity. Qed.

Lemma read_children_decoded (s : list ascii) (fuel : nat) (post : list ascii) :
  forall ks k c0 pre pos,
    decodes k -> Forall decodes ks ->
    wf_enc k = true -> forallb wf_enc ks = true ->
    s = pre ++ c0 :: render k ++ siblings ks ++ ")"%char :: post ->
    pos = Z.of_nat (length pre) ->
    (length (render k ++ siblings ks) + 1 <= fuel)%nat ->
    read_children
      (fun p => readTldString_loop fuel s (Z.of_nat (length s)) zero_node p 0 p)
      (S (length ks)) pos
    = Ret (decoded_node k :: map decoded_node ks,
           pos + 1 + Z.of_nat (length (render k ++ siblings ks))).
Proof.
  induction ks as [|k2 ks IH];
    intros k c0 pre pos Hk Hks Wk Wks Hs Hpos Hfuel.
  - assert (readTldString_loop fuel s (Z.of_nat (length s)) zero_node
              (pos + 1) 0 (pos + 1)
            = Ret (decoded_node k, pos + 1 + Z.of_nat (length (render k))))
      as Hfirst.
    { specialize (Hk Wk fuel (pre ++ [c0]) (")"%char :: post)).
      unfold readTldString in Hk.
      replace ((pre ++ [c0]) ++ render k ++ ")"%char :: post) with s in Hk
        by (rewrite Hs; unfold siblings; cbn [flat_map]; reassoc).
      replace (Z.of_nat (length (pre ++ [c0]))) with (pos + 1) in Hk
        by (rewrite Hpos; lengths).
      apply Hk.
      - unfold siblings in Hfuel. simpl in Hfuel.
        rewrite app_nil_r in Hfuel. exact Hfuel.
      - intros _. exists ")"%char, post. auto. }
    cbn [length]. rewrite read_children_S, Hfirst.
    cbn [read_children bind fst snd map].
    unfold siblings. simpl flat_map. rewrite app_nil_r. reflexivity.
  - apply Forall_cons_iff in Hks. destruct Hks as [Hk2 Hks'].
    simpl in Wks. apply andb_prop in Wks. destruct Wks as [Wk2 Wks].
    assert (readTldString_loop fuel s (Z.of_nat (length s)) zero_node
              (pos + 1) 0 (pos + 1)
            = Ret (decoded_node k, pos + 1 + Z.of_nat (length (render k))))
      as Hfirst.
    { specialize (Hk Wk fuel (pre ++ [c0])
                    (","%char :: render k2 ++ siblings ks
                       ++ ")"%char :: post)).
      unfold readTldString in Hk.
      replace ((pre ++ [c0]) ++ render k
               ++ ","%char :: render k2 ++ siblings ks ++ ")"%char :: post)
        with s in Hk by (rewrite Hs; unfold siblings; cbn [flat_map]; reassoc).
      replace (Z.of_nat (length (pre ++ [c0]))) with (pos + 1) in Hk
        by (rewrite Hpos; lengths).
      apply Hk.
      - rewrite length_app in Hfuel. lia.
      - intros _. eexists. eexists. split; [reflexivity|]. auto. }
    cbn [length]. rewrite read_children_S, Hfirst. cbn [bind fst snd].
    rewrite (IH k2 ","%char (pre ++ c0 :: render k)
               (pos + 1 + Z.of_nat (length (render k)))); auto.
    + cbn [bind fst snd map]. f_equal. f_equal.
      unfold siblings. simpl flat_map. lengths.
    + rewrite Hs. unfold siblings. cbn [flat_map]. reassoc.
    + rewrite Hpos. lengths.
    + unfold siblings in *. simpl flat_map in Hfuel.
      rewrite length_app in Hfuel. simpl length in Hfuel. lia.
Qed.

Lemma forallb_digit_inert (cnt : list ascii) :
  forallb is_digit cnt = true -> forallb (inert 1) cnt = true.
Proof.
  induction cnt as [|c r IH]; simpl; [reflexivity|].
  intros H. apply andb_prop in H. destruct H as [Hc Hr].
  rewrite (IH Hr), andb_true_r. unfold inert.
  change (1 =? 0) with false. cbv iota.
  now rewrite (digit_not_colon c Hc).
Qed.

Lemma decode_leaf (m : bool) (l : list ascii) : decodes (ELeaf m l).
Proof.
  intros Hwf fuel pre post Hfuel Hpost. simpl in Hwf.
  destruct (Hpost eq_refl) as (d & post' & -> & Hd & Hd').
  unfold readTldString. cbn [render] in *.
  set (s := pre ++ run m l ++ d :: post').
  rewrite (scan_run s m l fuel pre (d :: post'));
    [|reflexivity|discriminate|assumption|lia].
  destruct (fuel - length (run m l))%nat as [|f] eqn:Ef; [lia|].
  rewrite (at_delimiter s m l d f pre post' eq_refl Hd).
  rewrite Hd'. destruct m; reflexivity.
Qed.

Lemma decode_block (m : bool) (l cnt : list ascii) (k : enc) (ks : list enc) :
  decodes k -> Forall decodes ks -> decodes (EBlock m l cnt k ks).
Proof.
  intros Hk Hks Hwf fuel pre post Hfuel _.
  simpl in Hwf. rewrite !andb_true_iff in Hwf.
  destruct Hwf as [[[Wl Wc] Wk] Wks].
  unfold readTldString. cbn [render] in *. fold (siblings ks) in *.
  set (s := pre ++ (run m l ++ "("%char :: cnt ++ ":"%char :: render k
                      ++ siblings ks ++ [")"%char]) ++ post).
  assert (s = pre ++ run m l ++ "("%char :: cnt ++ ":"%char :: render k
                ++ siblings ks ++ ")"%char :: post) as Hs
    by (unfold s; reassoc).
  clearbody s.
  rewrite !length_app in Hfuel. cbn [length] in Hfuel.
  rewrite !length_app in Hfuel. cbn [length] in Hfuel.
  rewrite !length_app in Hfuel. cbn [length] in Hfuel.
  (* the run and the opening parenthesis *)
  rewrite (scan_run s m l fuel pre _ Hs); [|discriminate|assumption|lia].
  destruct (fuel - length (run m l))%nat as [|f1] eqn:E1; [lia|].
  rewrite (at_delimiter s m l "(" f1 pre _ Hs eq_refl).
  change (Ascii.eqb "(" "(") with true. cbv iota.
  set (pos1 := Z.of_nat (length pre) + Z.of_nat (length (run m l))).
  replace (pos1 + 1 <? Z.of_nat (length s)) with true.
  2:{ symmetry. apply Z.ltb_lt. unfold pos1. rewrite Hs. lengths. }
  (* the count *)
  rewrite (skip_inert s cnt f1 _ pos1 1 (pos1 + 1)
             (pre ++ run m l ++ ["("%char])
             (":"%char :: render k ++ siblings ks ++ ")"%char :: post));
    [|rewrite Hs; reassoc|discriminate|unfold pos1; lengths|now right
     |apply forallb_digit_inert;
      unfold count_ok in Wc; rewrite !andb_true_iff in Wc; apply Wc
     |lia].
  destruct (f1 - length cnt)%nat as [|f2] eqn:E2; [lia|].
  rewrite (at_colon s _ cnt (S (length ks)) f2 (pre ++ run m l)
             (render k ++ siblings ks ++ ")"%char :: post) pos1
             (pos1 + 1 + Z.of_nat (length cnt)));
    [|rewrite Hs; reassoc|assumption|unfold pos1; lengths|reflexivity].
  (* the children and the closing parenthesis *)
  rewrite (read_children_decoded s f2 post ks k ":"%char
             (pre ++ run m l ++ "("%char :: cnt)
             (pos1 + 1 + Z.of_nat (length cnt)) Hk Hks Wk Wks);
    [|rewrite Hs; reassoc|unfold pos1; lengths|rewrite length_app; lia].
  cbn [bind fst snd].
  f_equal; f_equal; first [now destruct m | unfold pos1; lengths].
Qed.

Lemma decode_enc (e : enc) : decodes e.
Proof.
  induction e using enc_induction;
    [apply decode_leaf|apply decode_block; assumption].
Qed.

Lemma child_position (d : enc) (post0 : list ascii) :
  forall i ks k pre0 c0 s,
    s = pre0 ++ c0 :: render k ++ siblings ks ++ ")"%char :: post0 ->
    (i < S (length ks))%nat ->
    exists pre_i post_i,
      s = pre_i ++ render (nth i (k :: ks) d) ++ post_i
      /\ Z.of_nat (length pre_i)
         = child_start (Z.of_nat (length pre0) + 1) (k :: ks) i
      /\ follows_leaf post_i
      /\ rd s (Z.of_nat (length pre_i) - 1)
         = Ret (if Nat.eqb i 0 then c0 else ","%char).
Proof.
  induction i as [|i IH]; intros ks k pre0 c0 s Hs Hi.
  - exists (pre0 ++ [c0]), (siblings ks ++ ")"%char :: post0).
    split; [rewrite Hs; reassoc|]. split; [cbn [child_start]; lengths|]. split.
    + destruct ks as [|k2 ks]; unfold siblings; simpl;
        eexists; eexists; (split; [reflexivity|auto]).
    + replace (Z.of_nat (length (pre0 ++ [c0])) - 1)
        with (Z.of_nat (length pre0)) by lengths.
      rewrite Hs. apply rd_middle.
  - destruct ks as [|k2 ks]; [simpl in Hi; lia|].
    destruct (IH ks k2 (pre0 ++ c0 :: render k) ","%char s)
      as (pre_i & post_i & E1 & E2 & E3 & E4).
    { rewrite Hs. unfold siblings. cbn [flat_map]. reassoc. }
    { simpl in Hi. lia. }
    exists pre_i, post_i. split; [exact E1|]. split; [|split].
    + rewrite E2.
      change (child_start (Z.of_nat (length pre0) + 1) (k :: k2 :: ks) (S i))
        with (child_start (Z.of_nat (length pre0) + 1
                           + Z.of_nat (length (render k)) + 1) (k2 :: ks) i).
      f_equal. lengths.
    + exact E3.
    + rewrite E4. now destruct i.
Qed.

Lemma render_child_le (m : bool) (l cnt : list ascii) (k : enc)
    (ks : list enc) (x : enc) :
  In x (k :: ks) ->
  (length (render x) <= length (render (EBlock m l cnt k ks)))%nat.
Proof.
  intros Hin. cbn [render]. fold (siblings ks).
  assert (length (render x) <= length (render k) + length (siblings ks))%nat;
    [|lengths].
  destruct Hin as [<-|Hin]; [lia|].
  assert (length (render x) <= length (siblings ks))%nat; [|lia].
  induction ks as [|y ks IH]; [contradiction|].
  unfold siblings in *. cbn [flat_map]. rewrite length_app. cbn [length].
  destruct Hin as [<-|Hin]; [lia|]. specialize (IH Hin). lia.
Qed.

(** Claim C7: for a well-formed encoding whose label is followed by a
    child block with decimal count N, the decoder builds the node with
    exactly N children, reads each child one position past the delimiter
    before it, and returns the position just past the closing
    parenthesis. *)
Theorem child_block_decoded (fuel : nat) (m : bool) (l cnt : list ascii)
    (k : enc) (ks : list enc) (pre post : list ascii) :
  wf_enc (EBlock m l cnt k ks) = true ->
  (length (render (EBlock m l cnt k ks)) + 1 <= fuel)%nat ->
  block_decoded fuel m l cnt k ks pre post.
Proof.
  intros Hwf Hfuel. unfold block_decoded. cbv zeta.
  set (e := EBlock m l cnt k ks) in *.
  exists (decoded_node e).
  assert (wf_enc e = true) as Hwf' by exact Hwf.
  unfold e in Hwf. simpl in Hwf. rewrite !andb_true_iff in Hwf.
  destruct Hwf as [[[Wl Wc] Wk] Wks].
  split; [|split; [|split; [|split]]].
  - apply decode_enc; [assumption|exact Hfuel|discriminate].
  - unfold e. cbn [render]. fold (siblings ks).
    replace (pre ++ (run m l ++ "("%char :: cnt ++ ":"%char :: render k
                       ++ siblings ks ++ [")"%char]) ++ post)
      with ((pre ++ run m l ++ "("%char :: cnt ++ ":"%char :: render k
               ++ siblings ks) ++ ")"%char :: post) by reassoc.
    match goal with |- rd _ ?p = _ =>
      replace p with (Z.of_nat (length (pre ++ run m l ++ "("%char :: cnt
                                          ++ ":"%char :: render k
                                          ++ siblings ks)))
        by lengths
    end.
    apply rd_middle.
  - destruct (atoi_count cnt _ Wc) as [-> _].
    unfold e, num_children. simpl. now rewrite length_map.
  - unfold e. simpl. now rewrite length_map.
  - intros i Hi. cbv zeta.
    set (s := pre ++ render e ++ post).
    destruct (child_position k post i ks k (pre ++ run m l ++ "("%char :: cnt)
                ":"%char s) as (pre_i & post_i & E1 & E2 & E3 & E4);
      [unfold s, e; cbn [render]; fold (siblings ks); reassoc|exact Hi|].
    replace (Z.of_nat (length pre) + Z.of_nat (length (run m l)) + 1
             + Z.of_nat (length cnt) + 1)
      with (Z.of_nat (length (pre ++ run m l ++ "("%char :: cnt)) + 1)
      by lengths.
    rewrite <- E2. split; [exact E4|].
    assert (In (nth i (k :: ks) k) (k :: ks)) as Hin
      by (apply nth_In; simpl; lia).
    assert (wf_enc (nth i (k :: ks) k) = true) as Wi.
    { destruct Hin as [<-|Hin]; [assumption|].
      rewrite forallb_forall in Wks. apply Wks. exact Hin. }
    assert (nth i (subnodes (decoded_node e)) zero_node
            = decoded_node (nth i (k :: ks) k)) as ->.
    { unfold e. cbn [decoded_node subnodes].
      change (decoded_node k :: map decoded_node ks)
        with (map decoded_node (k :: ks)).
      rewrite (nth_indep _ zero_node (decoded_node k))
        by (rewrite length_map; simpl; lia).
      apply map_nth. }
    pose proof (decode_enc (nth i (k :: ks) k) Wi fuel pre_i post_i) as D.
    rewrite <- E1 in D. apply D; [|intros _; exact E3].
    pose proof (render_child_le m l cnt k ks _ Hin). fold e in H. lia.
Qed.

Lemma child_block_decoded_witness :
  block_decoded 40 false (cs "uk") (cs "2") (ELeaf false (cs "*"))
    [EBlock false (cs "parliament") (cs "1") (ELeaf true []) []]
    (cs "root(3:com,") (cs ",*)").
Proof.
  apply (child_block_decoded 40 false (cs "uk") (cs "2") (ELeaf false (cs "*"))
           [EBlock false (cs "parliament") (cs "1") (ELeaf true []) []]
           (cs "root(3:com,") (cs ",*)")).
  - reflexivity.
  - apply Nat.leb_le. reflexivity.
Defined.

(** A whole table that is a well-formed block is loaded as the tree of its
    encoding. *)
Lemma loadTldTree_block (m : bool) (l cnt : list ascii) (k : enc)
    (ks : list enc) :
  wf_enc (EBlock m l cnt k ks) = true ->
  loadTldTree (render (EBlock m l cnt k ks))
  = Ret (decoded_node (EBlock m l cnt k ks)).
Proof.
  intros Hwf. unfold loadTldTree.
  pose proof (decode_enc _ Hwf (S (length (render (EBlock m l cnt k ks))))
                [] []) as D.
  cbn [app length] in D. rewrite app_nil_r in D.
  change (Z.of_nat 0) with 0 in D.
  rewrite D; [reflexivity|lia|discriminate].
Qed.

(** ** Exception marks *)

(** The label stored for a marked run keeps the mark and loses the last
    character of the label. *)
Lemma copied_label_marked (l : list ascii) :
  l <> [] ->
  forallb label_char l = true ->
  copied_label true l = "!"%char :: removelast l /\ copied_label true l <> l.
Proof.
  intros Hne Hl. unfold copied_label, run.
  destruct l as [|x l]; [congruence|].
  cbn [length]. rewrite Nat.sub_succ, Nat.sub_0_r. cbn [firstn].
  rewrite removelast_firstn_len. cbn [length Nat.pred]. split; [reflexivity|].
  intros E. injection E as E _. subst x.
  simpl in Hl. discriminate.
Qed.

Lemma marked_leaf_decoded (l : list ascii) (d : ascii) (fuel : nat)
    (pre post : list ascii) :
  forallb label_char l = true ->
  is_delim d = true -> Ascii.eqb d "(" = false ->
  (length l + 2 <= fuel)%nat ->
  readTldString fuel (pre ++ ("!"%char :: l) ++ d :: post)
    (Z.of_nat (length (pre ++ ("!"%char :: l) ++ d :: post)))
    (Z.of_nat (length pre))
  = Ret (mk_tldnode (Some (copied_label true l)) THIS [],
         Z.of_nat (length pre) + 1 + Z.of_nat (length l)).
Proof.
  intros Hl Hd Hd' Hfuel.
  pose proof (decode_enc (ELeaf true l) Hl fuel pre (d :: post)) as D.
  cbn [decoded_node render run length] in D. rewrite D.
  - f_equal. f_equal. lia.
  - lia.
  - intros _. exists d, post. auto.
Qed.

(** Claim C6, evaluated on the code: the run [!ab] ended by a comma is
    decoded with the exception flag set and the label [!a]; in a block, the
    run [!parliament] is stored as [!parliamen].  The length is reduced by
    one for the mark, but the characters are copied from the start of the
    run.  Only the run that is the mark alone yields the run without the
    mark, the empty label. *)
Theorem exception_label_copied_from_mark :
  readTldString 5 (cs "!ab,") 4 0
  = Ret (mk_tldnode (Some (cs "!a")) THIS [], 3)
  /\ loadTldTree (cs "uk(2:*,!parliament)")
     = Ret (mk_tldnode (Some (cs "uk")) ATTR_NULL
              [leaf "*"; mk_tldnode (Some (cs "!parliamen")) THIS []])
  /\ cs "!parliamen" <> cs "parliament"
  /\ loadTldTree (cs "parliament(1:!)")
     = Ret (mk_tldnode (Some (cs "parliament")) ATTR_NULL
              [mk_tldnode (Some []) THIS []]).
Proof.
  repeat split; try (vm_compute; reflexivity). discriminate.
Qed.

(** * Further properties of the resolver *)

(** ** Memory safety and termination *)

Section Defined.
Variable hostname : list ascii.

Lemma scan_back_defined (n : nat) : forall p,
  0 <= p <= Z.of_nat (length hostname) ->
  (Z.to_nat p <= n)%nat ->
  exists s, scan_back n hostname p = Ret s.
Proof.
  induction n as [|n IH]; intros p Hp Hn; simpl;
    destruct (p >? 0) eqn:Ep; eauto; apply Z.gtb_lt in Ep; [lia|].
  rewrite rd_in_bounds by lia. cbn [bind].
  destruct (is_dot _); eauto. apply IH; lia.
Qed.

Lemma label_start_defined (p : Z) :
  0 <= p <= Z.of_nat (length hostname) ->
  exists s, label_start hostname p = Ret s.
Proof.
  intros Hp. unfold label_start.
  destruct (scan_back_defined (Z.to_nat p) p Hp (le_n _)) as [s Hs].
  rewrite Hs. cbn [bind]. apply scan_back_Ret in Hs.
  rewrite rd_in_bounds by lia. cbn [bind]. eauto.
Qed.

(** The label test reads inside the host name, also on the window
    [seg_end + 1, seg_end) that a trailing dot produces. *)
Lemma label_matches_defined (d : list ascii) (seg_start seg_end : Z) :
  Z.of_nat (strlen d) < 2 ^ 64 - 1 ->
  0 <= seg_start <= seg_end + 1 ->
  seg_end <= Z.of_nat (length hostname) ->
  exists b, label_matches (Some d) hostname seg_start seg_end = Ret b.
Proof.
  intros Hd Hs He. unfold label_matches, size_t_of.
  destruct ((seg_end - seg_start) mod 2 ^ 64 =? Z.of_nat (strlen d)) eqn:E;
    [|eauto].
  apply Z.eqb_eq in E. unfold bytes_at.
  replace ((0 <=? seg_start) && (0 <=? Z.of_nat (strlen d))
           && (seg_start + Z.of_nat (strlen d)
               <=? Z.of_nat (length hostname) + 1)) with true; [simpl; eauto|].
  symmetry. rewrite !andb_true_iff, !Z.leb_le.
  destruct (Z.eq_dec seg_start (seg_end + 1)) as [->|Hne].
  - replace (seg_end - (seg_end + 1)) with (-1) in E by lia.
    change ((-1) mod 2 ^ 64) with (2 ^ 64 - 1) in E. lia.
  - assert ((seg_end - seg_start) mod 2 ^ 64 <= seg_end - seg_start)
      by (apply Z.mod_le; lia).
    lia.
Qed.

Lemma findTldNode_from_defined (children : list tldnode)
    (seg_start seg_end : Z) : forall allNode,
  forallb well_labelled children = true ->
  0 <= seg_start <= seg_end + 1 ->
  seg_end <= Z.of_nat (length hostname) ->
  exists r,
    findTldNode_from children allNode hostname seg_start seg_end = Ret r.
Proof.
  induction children as [|child rest IH]; intros allNode Hw Hs He; simpl;
    [eauto|].
  simpl in Hw. apply andb_prop in Hw. destruct Hw as [Hc Hrest].
  destruct child as [[d|] a l]; simpl in Hc; [|discriminate].
  apply andb_prop in Hc. destruct Hc as [Hd _]. apply Z.ltb_lt in Hd.
  destruct (label_matches_defined d seg_start seg_end Hd Hs He) as [b Hb].
  cbn [dom].
  destruct allNode as [x|]; cbn [bind strcmp_ALL].
  - rewrite Hb. cbn [bind]. destruct b; eauto.
  - destruct (list_ascii_eqb (cstr d) ALL); [eauto|].
    rewrite Hb. cbn [bind]. destruct b; eauto.
Qed.

Lemma well_labelled_child (t c : tldnode) :
  well_labelled t = true -> In c (subnodes t) -> well_labelled c = true.
Proof.
  destruct t as [d a l]. simpl. intros H Hin.
  apply andb_prop in H. destruct H as [_ H].
  rewrite forallb_forall in H. now apply H.
Qed.

Lemma well_labelled_subnodes (t : tldnode) :
  well_labelled t = true -> forallb well_labelled (subnodes t) = true.
Proof.
  destruct t as [d a l]. simpl. intros H.
  apply andb_prop in H. now destruct H.
Qed.

Lemma descend_defined (c0 : ascii) (fuel : nat) :
  rd hostname 0 = Ret c0 -> is_dot c0 = false ->
  forall tree seg_start seg_end,
    (height tree <= fuel)%nat ->
    well_labelled tree = true ->
    0 <= seg_start <= seg_end ->
    seg_end <= Z.of_nat (strlen hostname) ->
    exists x, descend fuel hostname tree seg_start seg_end = Ret x.
Proof.
  intros Hc0 Hnd. pose proof (strlen_le_length hostname) as HL.
  induction fuel as [|fuel IH]; intros tree p e Hh Hw Hp He.
  - destruct tree; simpl in Hh; lia.
  - simpl. destruct (label_start_defined p) as [s Hs]; [lia|].
    rewrite Hs. cbn [bind]. apply label_start_Ret in Hs.
    destruct Hs as (B1 & B2 & B3).
    destruct (findTldNode_from_defined (subnodes tree) s e None)
      as [r Hr]; [now apply well_labelled_subnodes|lia|lia|].
    unfold findTldNode. rewrite Hr. cbn [bind].
    destruct r as [subtree|]; [|eauto].
    destruct (only_child_is_exception subtree); [eauto|].
    destruct (s =? 0) eqn:E0; [eauto|]. apply Z.eqb_neq in E0.
    rewrite (B2 E0). cbn [bind]. change (negb (is_dot ".")) with false.
    cbv iota.
    assert (s <> 1) as H1.
    { intros ->. specialize (B2 E0). simpl in B2. rewrite Hc0 in B2.
      injection B2 as ->. discriminate. }
    apply findTldNode_from_In in Hr. destruct Hr as [Hr|Hr]; [|discriminate].
    apply IH; try lia.
    + apply height_child in Hr. lia.
    + now apply (well_labelled_child tree).
Qed.
End Defined.

Lemma strlen_pos (h : list ascii) (c0 : ascii) :
  rd h 0 = Ret c0 -> is_nul c0 = false -> (1 <= strlen h)%nat.
Proof.
  intros H Hn. apply rd_Ret in H. destruct H as [_ ->].
  destruct h as [|c r]; simpl in *; [discriminate|]. rewrite Hn. lia.
Qed.

Lemma resolver_defined (hostname : list ascii) (tree : tldnode)
    (drop_unknown : Z) :
  well_labelled tree = true ->
  exists r, getRegisteredDomainDropI hostname tree drop_unknown = Ret r.
Proof.
  intros Hw. unfold getRegisteredDomainDropI.
  pose proof (strlen_le_length hostname) as HL.
  destruct (rd hostname 0) as [c0| | |] eqn:Hc0;
    try (rewrite rd_in_bounds in Hc0 by lia; discriminate).
  cbn [bind]. destruct (is_dot c0) eqn:Ed; [simpl; eauto|].
  destruct (is_nul c0) eqn:En; [simpl; eauto|]. cbn [orb].
  pose proof (strlen_pos _ _ Hc0 En) as Hpos.
  rewrite (rd_in_bounds hostname (Z.of_nat (strlen hostname) - 1)) by lia.
  cbn [bind].
  set (e := if is_dot _ then _ else _).
  assert (0 <= e <= Z.of_nat (strlen hostname)) as He.
  { subst e. destruct (is_dot (nth _ _ _)); lia. }
  clearbody e.
  destruct (descend_defined hostname c0 (height tree) Hc0 Ed tree e e)
    as [x Hx]; try lia; try assumption.
  rewrite Hx. cbn [bind]. destruct x as [s|]; simpl; [|eauto].
  apply descend_Matched in Hx; [|lia]. destruct Hx as [Hs Hdot].
  unfold strchr_dot.
  replace ((0 <=? s) && (s <=? Z.of_nat (length hostname))) with true
    by (symmetry; rewrite andb_true_iff, !Z.leb_le; lia).
  cbn [bind]. destruct (existsb _ _); [eauto|].
  destruct (s =? 0) eqn:E0; [simpl; eauto|]. apply Z.eqb_neq in E0.
  destruct (negb (drop_unknown =? 0)); [simpl; eauto|]. cbn [orb].
  assert (s <> 1) as H1.
  { intros ->. specialize (Hdot E0). simpl in Hdot. rewrite Hc0 in Hdot.
    injection Hdot as ->. discriminate. }
  destruct (label_start_defined hostname (s - 2)) as [s' Hs']; [lia|].
  rewrite Hs'. simpl. eauto.
Qed.

(** X1: on a tree in which every node has a label, the resolver returns
    normally for every host name and every flag: it terminates, reads only
    inside the host name and never calls [abort()]. *)
Theorem resolver_total (hostname : list ascii) (tree : tldnode)
    (drop_unknown : Z) :
  well_labelled tree = true ->
  (exists r, getRegisteredDomainDrop hostname tree drop_unknown = Ret r)
  /\ (exists r, getRegisteredDomain hostname tree = Ret r).
Proof.
  intros Hw. split; apply resolver_defined; assumption.
Qed.

Lemma resolver_total_witness :
  (exists r, getRegisteredDomainDrop (cs "www.example.co.uk.") scenario_tree 1
             = Ret r)
  /\ (exists r, getRegisteredDomain (cs "www.example.co.uk.") scenario_tree
                = Ret r).
Proof.
  apply (resolver_total (cs "www.example.co.uk.") scenario_tree 1).
  reflexivity.
Defined.

(** ** What a result looks like *)

Lemma In_skipn {A : Type} (x : A) (n : nat) (l : list A) :
  In x (skipn n l) -> In x l.
Proof.
  intros H. rewrite <- (firstn_skipn n l). apply in_or_app. now right.
Qed.

Lemma In_removelast {A : Type} (x d : A) (l : list A) :
  In x l -> last l d <> x -> In x (removelast l).
Proof.
  intros Hin Hlast.
  assert (l <> []) as Hne by (destruct l; [contradiction|discriminate]).
  rewrite (app_removelast_last d Hne) in Hin.
  apply in_app_or in Hin. destruct Hin as [Hin|[Hin|[]]]; congruence.
Qed.

(** X2: every non-null result contains a dot; if the host name does not end
    with a dot, some dot of the result is followed by a further character,
    so the result is never a single label. *)
Theorem result_has_dot (hostname : list ascii) (tree : tldnode)
    (drop_unknown off : Z) :
  getRegisteredDomainDrop hostname tree drop_unknown = Ret (Some off) ->
  In "."%char (cstr_at hostname off)
  /\ (last (cstr hostname) NUL <> "."%char ->
      In "."%char (removelast (cstr_at hostname off))).
Proof.
  intros H. unfold getRegisteredDomainDrop in H.
  pose proof (result_contains_dot _ _ _ _ H) as Hin.
  split; [exact Hin|]. intros Hlast.
  apply (In_removelast _ NUL); [exact Hin|].
  apply result_in_bounds in H.
  unfold cstr_at. rewrite cstr_skipn by lia.
  rewrite last_skipn by (rewrite length_cstr; lia). exact Hlast.
Qed.

Lemma result_has_dot_witness :
  In "."%char (cstr_at (cs "a.b.example.co.uk") 4)
  /\ (last (cstr (cs "a.b.example.co.uk")) NUL <> "."%char ->
      In "."%char (removelast (cstr_at (cs "a.b.example.co.uk") 4))).
Proof.
  apply (result_has_dot (cs "a.b.example.co.uk") scenario_tree 1 4).
  vm_compute. reflexivity.
Defined.

(** X3: a non-null result starts at the start of a label: at the first
    character of the host name or just after a dot. *)
Theorem result_starts_label (hostname : list ascii) (tree : tldnode)
    (drop_unknown off : Z) :
  getRegisteredDomainDrop hostname tree drop_unknown = Ret (Some off) ->
  off = 0 \/ rd hostname (off - 1) = Ret "."%char.
Proof.
  unfold getRegisteredDomainDrop, getRegisteredDomainDropI. intros H.
  bind_step H as c0 Hc0.
  destruct (is_dot c0 || is_nul c0); [discriminate|].
  bind_step H as c Hc. bind_step H as e He.
  destruct e as [s|]; simpl in H; [|discriminate].
  apply descend_Matched in He; [|destruct (is_dot c); lia].
  destruct He as [Hs Hdot]. bind_step H as has_dot Hd. destruct has_dot.
  - injection H as <-. destruct (Z.eq_dec s 0); auto.
  - destruct ((s =? 0) || negb (drop_unknown =? 0)); [discriminate|].
    bind_step H as s' Hs'. injection H as <-.
    apply label_start_Ret in Hs'. destruct Hs' as (_ & B & _).
    destruct (Z.eq_dec s' 0); auto.
Qed.

Lemma result_starts_label_witness :
  4 = 0 \/ rd (cs "a.b.example.co.uk") (4 - 1) = Ret "."%char.
Proof.
  apply (result_starts_label (cs "a.b.example.co.uk") scenario_tree 1 4).
  vm_compute. reflexivity.
Defined.

(** ** The drop flag *)

Lemma finish_drop (hostname : list ascii) (e : loop_exit) (d : Z) :
  d <> 0 ->
  (forall d', d' <> 0 -> finish hostname d' e = finish hostname d e)
  /\ (forall off, finish hostname d e = Ret (Some off) ->
                  finish hostname 0 e = Ret (Some off))
  /\ (finish hostname 0 e = Ret None -> finish hostname d e = Ret None).
Proof.
  intros Hd. apply Z.eqb_neq in Hd.
  destruct e as [s|]; simpl; [|repeat split; auto; discriminate].
  destruct (strchr_dot hostname s) as [[|]| | |]; simpl;
    try (repeat split; auto; discriminate).
  rewrite Hd. simpl. rewrite orb_true_r. repeat split.
  - intros d' Hd'. apply Z.eqb_neq in Hd'. rewrite Hd'. simpl.
    now rewrite orb_true_r.
  - discriminate.
Qed.

(** X4: the flag only suppresses results.  All non-zero values of
    [drop_unknown] behave alike; a result found with the flag set is the
    result without it; and when nothing is found without the flag, nothing
    is found with it. *)
Theorem drop_unknown_only_drops (hostname : list ascii) (tree : tldnode)
    (d : Z) :
  d <> 0 ->
  (forall d', d' <> 0 ->
     getRegisteredDomainDrop hostname tree d'
     = getRegisteredDomainDrop hostname tree d)
  /\ (forall off,
        getRegisteredDomainDrop hostname tree d = Ret (Some off) ->
        getRegisteredDomain hostname tree = Ret (Some off))
  /\ (getRegisteredDomain hostname tree = Ret None ->
      getRegisteredDomainDrop hostname tree d = Ret None).
Proof.
  intros Hd. unfold getRegisteredDomainDrop, getRegisteredDomain,
    getRegisteredDomainDropI.
  destruct (rd hostname 0) as [c0| | |]; simpl;
    try (repeat split; auto; discriminate).
  destruct (is_dot c0 || is_nul c0);
    try (repeat split; auto; discriminate).
  destruct (rd hostname _) as [c| | |]; simpl;
    try (repeat split; auto; discriminate).
  destruct (descend _ _ _ _ _) as [e| | |]; simpl;
    try (repeat split; auto; discriminate).
  apply finish_drop. exact Hd.
Qed.

Lemma drop_unknown_only_drops_witness :
  (forall d', d' <> 0 ->
     getRegisteredDomainDrop (cs "something.xx") com_tree d'
     = getRegisteredDomainDrop (cs "something.xx") com_tree 1)
  /\ (forall off,
        getRegisteredDomainDrop (cs "something.xx") com_tree 1
        = Ret (Some off) ->
        getRegisteredDomain (cs "something.xx") com_tree = Ret (Some off))
  /\ (getRegisteredDomain (cs "something.xx") com_tree = Ret None ->
      getRegisteredDomainDrop (cs "something.xx") com_tree 1 = Ret None).
Proof.
  apply (drop_unknown_only_drops (cs "something.xx") com_tree 1). lia.
Defined.

(** X5: a host name without any dot has no registered domain, whatever the
    rules are. *)
Theorem dotless_hostname_noMatch (hostname : list ascii) (tree : tldnode)
    (drop_unknown : Z) :
  well_labelled tree = true ->
  ~ In "."%char (cstr hostname) ->
  getRegisteredDomainDrop hostname tree drop_unknown = Ret None.
Proof.
  intros Hw Hnd. unfold getRegisteredDomainDrop.
  destruct (resolver_defined hostname tree drop_unknown Hw) as [[off|] Hr];
    [|exact Hr].
  exfalso. apply Hnd.
  pose proof (result_contains_dot _ _ _ _ Hr) as Hin.
  apply result_in_bounds in Hr.
  unfold cstr_at in Hin. rewrite cstr_skipn in Hin by lia.
  now apply In_skipn in Hin.
Qed.

Lemma dotless_hostname_noMatch_witness :
  getRegisteredDomainDrop (cs "localhost") scenario_tree 0 = Ret None.
Proof.
  apply (dotless_hostname_noMatch (cs "localhost") scenario_tree 0).
  - reflexivity.
  - vm_compute. intuition discriminate.
Defined.

(** ** The child search as a two-phase scan *)

Section Lookup.
Variables (hostname : list ascii) (seg_start seg_end : Z).
Hypothesis window_ok : 0 <= seg_start <= seg_end.
Hypothesis window_in : seg_end <= Z.of_nat (length hostname).
Hypothesis window_size : seg_end - seg_start < 2 ^ 64.

(** On a proper window, the search is the scan for the label in it. *)
Lemma findTldNode_from_lookup (children : list tldnode) : forall allNode,
  Forall (fun n => dom n <> None) children ->
  findTldNode_from children allNode hostname seg_start seg_end
  = Ret (lookup_from children allNode
           (window hostname seg_start seg_end)).
Proof.
  induction children as [|child rest IH]; intros allNode Hdom;
    [reflexivity|].
  inversion Hdom as [|x l Hd Hrest]; subst x l.
  destruct child as [[d|] a l]; [clear Hd|simpl in Hd; congruence].
  cbn [findTldNode_from lookup_from dom has_label].
  rewrite (label_matches_window hostname seg_start seg_end
             window_ok window_in window_size d).
  destruct allNode as [x|]; cbn [bind strcmp_ALL].
  - destruct (list_ascii_eqb (cstr d) _); [reflexivity|now apply IH].
  - destruct (list_ascii_eqb (cstr d) ALL); [now apply IH|].
    cbn [bind].
    destruct (list_ascii_eqb (cstr d) _); [reflexivity|now apply IH].
Qed.
End Lookup.

Lemma lookup_from_held (l : list ascii) (children : list tldnode) :
  forall a,
    lookup_from children (Some a) l
    = match find (has_label l) children with
      | Some c => Some c
      | None => Some a
      end.
Proof.
  induction children as [|child rest IH]; intros a; simpl; [reflexivity|].
  destruct (has_label l child); [reflexivity|apply IH].
Qed.

Lemma lookup_from_two_phase (l : list ascii) (children : list tldnode) :
  l <> ALL ->
  lookup_from children None l
  = match find (has_label l) children with
    | Some c => Some c
    | None => find (has_label ALL) children
    end.
Proof.
  intros Hl. induction children as [|child rest IH]; simpl; [reflexivity|].
  destruct (has_label ALL child) eqn:Ea.
  - assert (has_label l child = false) as ->.
    { unfold has_label in *. destruct (dom child) as [d|]; [|reflexivity].
      apply list_ascii_eqb_true in Ea. apply list_ascii_eqb_false.
      congruence. }
    apply lookup_from_held.
  - destruct (has_label l child); [reflexivity|exact IH].
Qed.

(** X6: for a label other than the asterisk, the search returns the first
    child that carries the label; if there is none, the first wildcard
    child; and a null pointer if there is none either. *)
Theorem findTldNode_two_phase (parent : tldnode) (hostname : list ascii)
    (seg_start seg_end : Z) :
  0 <= seg_start <= seg_end ->
  seg_end <= Z.of_nat (length hostname) ->
  seg_end - seg_start < 2 ^ 64 ->
  Forall (fun n => dom n <> None) (subnodes parent) ->
  window hostname seg_start seg_end <> ALL ->
  findTldNode parent hostname seg_start seg_end
  = Ret (match find (has_label (window hostname seg_start seg_end))
                 (subnodes parent) with
         | Some c => Some c
         | None => find (has_label ALL) (subnodes parent)
         end).
Proof.
  intros H1 H2 H3 Hdom Hl. unfold findTldNode.
  rewrite (findTldNode_from_lookup hostname seg_start seg_end H1 H2 H3
             (subnodes parent) None Hdom).
  f_equal. now apply lookup_from_two_phase.
Qed.

Lemma findTldNode_two_phase_witness :
  findTldNode uk_subtree (cs "example.co.uk") 8 10
  = Ret (match find (has_label (window (cs "example.co.uk") 8 10))
                 (subnodes uk_subtree) with
         | Some c => Some c
         | None => find (has_label ALL) (subnodes uk_subtree)
         end).
Proof.
  apply (findTldNode_two_phase uk_subtree (cs "example.co.uk") 8 10).
  - lia.
  - simpl. lia.
  - reflexivity.
  - repeat constructor; discriminate.
  - discriminate.
Defined.

(** ** The resolver on host names given by their labels *)

Lemma scan_back_stop (h : list ascii) (s0 : Z) (n : nat) : forall p,
  0 <= s0 <= p ->
  p <= Z.of_nat (length h) ->
  (forall j, s0 < j <= p -> is_dot (nth (Z.to_nat j) h NUL) = false) ->
  s0 = 0 \/ is_dot (nth (Z.to_nat s0) h NUL) = true ->
  (Z.to_nat p <= n)%nat ->
  scan_back n h p = Ret s0.
Proof.
  induction n as [|n IH]; intros p Hs Hp Hnd Hstop Hn; simpl;
    destruct (p >? 0) eqn:Ep;
    try (rewrite Z.gtb_ltb in Ep; apply Z.ltb_ge in Ep; f_equal; lia);
    apply Z.gtb_lt in Ep; [lia|].
  rewrite rd_in_bounds by lia. cbn [bind].
  destruct (Z.eq_dec p s0) as [->|Hne].
  - destruct Hstop as [-> | ->]; [lia|reflexivity].
  - rewrite Hnd by lia. apply IH; try lia; [|assumption].
    intros j Hj. apply Hnd. lia.
Qed.

Lemma nth_label (x l t : list ascii) (j : Z) :
  forallb (fun c => negb (is_dot c)) l = true ->
  Z.of_nat (length x) <= j < Z.of_nat (length x) + Z.of_nat (length l) ->
  is_dot (nth (Z.to_nat j) (x ++ l ++ t) NUL) = false.
Proof.
  intros Hl Hj. rewrite app_nth2 by lia. rewrite app_nth1 by lia.
  rewrite forallb_forall in Hl. apply negb_true_iff. apply Hl.
  apply nth_In. lia.
Qed.

(** From the end of a label, or from its last character, the scan leads to
    the start of the label. *)
Lemma label_start_at (x l t : list ascii) (p : Z) :
  forallb (fun c => negb (is_dot c)) l = true ->
  x = [] \/ (exists x', x = x' ++ ["."%char]) ->
  (p = Z.of_nat (length x) + Z.of_nat (length l) /\ t = [])
  \/ (p = Z.of_nat (length x) + Z.of_nat (length l) - 1 /\ 0 <= p) ->
  label_start (x ++ l ++ t) p = Ret (Z.of_nat (length x)).
Proof.
  intros Hl Hx Hp. unfold label_start.
  set (h := x ++ l ++ t).
  assert (Z.of_nat (length h)
          = Z.of_nat (length x) + Z.of_nat (length l) + Z.of_nat (length t))
    as Hlen by (unfold h; lengths).
  assert (forall j,
            Z.of_nat (length x) <= j <= p ->
            is_dot (nth (Z.to_nat j) h NUL) = false) as Hnd.
  { intros j Hj.
    destruct (Z.eq_dec j (Z.of_nat (length x) + Z.of_nat (length l)))
      as [->|Hne].
    - destruct Hp as [[_ ->]|[Hp _]]; [|lia].
      rewrite nth_overflow; [reflexivity|].
      unfold h. rewrite app_nil_r, length_app. lia.
    - apply nth_label; [assumption|]. destruct Hp as [[-> _]|[-> _]]; lia. }
  destruct Hx as [-> | [x' ->]].
  - rewrite (scan_back_stop h 0); cbn [length] in *;
      [|destruct Hp as [[-> _]|[_ ?]]; lia|lia
       |intros j Hj; apply Hnd; lia|now left|lia].
    cbn [bind]. rewrite rd_in_bounds by lia. cbn [bind].
    destruct (Z.eq_dec p (-1)) as [->|Hm]; [destruct Hp as [[? _]|[_ ?]]; lia|].
    rewrite Hnd; [reflexivity|destruct Hp as [[-> _]|[-> _]]; lia].
  - assert (nth (length x') h NUL = "."%char) as Hdot
      by (unfold h; rewrite <- app_assoc; apply nth_middle).
    rewrite length_app in *. cbn [length] in *.
    rewrite (scan_back_stop h (Z.of_nat (length x')));
      [|destruct Hp as [[-> _]|[-> ?]]; lia|lia
       |intros j Hj; apply Hnd; lia
       |right; now rewrite Nat2Z.id, Hdot|lia].
    cbn [bind]. rewrite rd_in_bounds by lia. cbn [bind].
    rewrite Nat2Z.id, Hdot. change (is_dot ".") with true. cbv iota.
    f_equal. lia.
Qed.

Lemma window_middle (x l t : list ascii) :
  window (x ++ l ++ t) (Z.of_nat (length x))
    (Z.of_nat (length x) + Z.of_nat (length l)) = l.
Proof.
  unfold window.
  replace (Z.to_nat (Z.of_nat (length x) + Z.of_nat (length l)
                     - Z.of_nat (length x))) with (length l) by lia.
  rewrite Nat2Z.id, skipn_app, skipn_all, Nat.sub_diag. cbn [skipn app].
  rewrite firstn_app, firstn_all, Nat.sub_diag, firstn_O. apply app_nil_r.
Qed.

Lemma prefix_str_form (lefts : list (list ascii)) :
  prefix_str lefts = [] \/ exists x', prefix_str lefts = x' ++ ["."%char].
Proof.
  destruct lefts as [|l lefts]; [now left|right].
  exists (prefix_str lefts ++ l). simpl. now rewrite app_assoc.
Qed.

Lemma prefix_str_app (a b : list (list ascii)) :
  prefix_str (a ++ b) = prefix_str b ++ prefix_str a.
Proof.
  induction a as [|l a IH]; simpl; [now rewrite app_nil_r|].
  now rewrite IH, <- app_assoc.
Qed.

Lemma prefix_str_split (k : nat) (lefts : list (list ascii)) :
  prefix_str lefts
  = prefix_str (skipn k lefts) ++ prefix_str (firstn k lefts).
Proof.
  rewrite <- prefix_str_app. now rewrite firstn_skipn.
Qed.

Lemma label_ok_facts (l : list ascii) :
  label_ok l = true ->
  l <> []
  /\ forallb (fun c => negb (is_dot c)) l = true
  /\ forallb (fun c => negb (is_nul c)) l = true.
Proof.
  unfold label_ok. destruct l as [|c r]; [discriminate|].
  intros H. split; [discriminate|].
  rewrite forallb_forall in H.
  split; apply forallb_forall; intros y Hy; specialize (H y Hy);
    apply andb_prop in H; tauto.
Qed.

Lemma matched_labels_bound (rls : list (list ascii)) : forall tree i,
  matched_labels tree rls = Some i -> (1 <= i <= length rls)%nat.
Proof.
  induction rls as [|cur lefts IH]; intros tree i H; simpl in H;
    [discriminate|].
  destruct (lookup tree cur) as [sub|];
    [|injection H as <-; simpl; lia].
  destruct (only_child_is_exception sub); [injection H as <-; simpl; lia|].
  destruct lefts as [|l lefts]; [discriminate|].
  destruct (matched_labels sub (l :: lefts)) as [j|] eqn:E; [|discriminate].
  injection H as <-. apply IH in E. simpl in *. lia.
Qed.

Lemma well_labelled_doms (t : tldnode) :
  well_labelled t = true -> Forall (fun n => dom n <> None) (subnodes t).
Proof.
  intros H. apply well_labelled_subnodes in H.
  rewrite forallb_forall in H. apply Forall_forall. intros c Hc.
  specialize (H c Hc). destruct c as [[d|] a l]; simpl in *; discriminate.
Qed.

Lemma lookup_from_In (l : list ascii) (children : list tldnode) :
  forall allNode c,
    lookup_from children allNode l = Some c ->
    In c children \/ allNode = Some c.
Proof.
  induction children as [|child rest IH]; intros allNode c H; simpl in H;
    [now right|].
  destruct (match allNode with
            | None => has_label ALL child
            | Some _ => false
            end).
  - apply IH in H. destruct H as [H|H]; [left; now right|].
    injection H as ->. left; now left.
  - destruct (has_label l child).
    + injection H as ->. left; now left.
    + apply IH in H. destruct H; [left; now right|now right].
Qed.

Lemma lookup_In (tree : tldnode) (l : list ascii) (c : tldnode) :
  lookup tree l = Some c -> In c (subnodes tree).
Proof.
  intros H. apply lookup_from_In in H. now destruct H.
Qed.

(** The loop on a host name made of labels follows [matched_labels]. *)
Lemma descend_labels (fuel : nat) :
  forall tree cur lefts t h p,
    (height tree <= fuel)%nat ->
    well_labelled tree = true ->
    forallb label_ok (cur :: lefts) = true ->
    h = prefix_str lefts ++ cur ++ t ->
    Z.of_nat (length h) < 2 ^ 64 ->
    (p = Z.of_nat (length (prefix_str lefts)) + Z.of_nat (length cur)
     /\ t = [])
    \/ (p = Z.of_nat (length (prefix_str lefts)) + Z.of_nat (length cur) - 1
        /\ 0 <= p) ->
    descend fuel h tree p
      (Z.of_nat (length (prefix_str lefts)) + Z.of_nat (length cur))
    = Ret (match matched_labels tree (cur :: lefts) with
           | Some i =>
               Matched (Z.of_nat (length (prefix_str (skipn (i - 1) lefts))))
           | None => TooShort
           end).
Proof.
  induction fuel as [|fuel IH];
    intros tree cur lefts t h p Hh Hw Hok Hs Hlen Hp.
  - destruct tree; simpl in Hh; lia.
  - simpl in Hok. apply andb_prop in Hok. destruct Hok as [Hcur Hlefts].
    destruct (label_ok_facts cur Hcur) as (Hne & Hnd & _).
    cbn [descend matched_labels].
    rewrite Hs at 1.
    rewrite (label_start_at _ cur t p Hnd (prefix_str_form lefts) Hp).
    cbn [bind]. unfold findTldNode.
    assert (Z.of_nat (length h)
            = Z.of_nat (length (prefix_str lefts)) + Z.of_nat (length cur)
              + Z.of_nat (length t)) as Hlenh by (rewrite Hs; lengths).
    rewrite (findTldNode_from_lookup h); try lia;
      [|now apply well_labelled_doms].
    rewrite Hs at 1. rewrite window_middle. cbn [bind]. fold (lookup tree cur).
    destruct (lookup tree cur) as [sub|] eqn:El;
      [|now rewrite Nat.sub_diag].
    destruct (only_child_is_exception sub); [now rewrite Nat.sub_diag|].
    destruct lefts as [|cur' lefts]; [reflexivity|].
    cbn [prefix_str].
    replace (Z.of_nat (length (prefix_str lefts ++ cur' ++ ["."%char])) =? 0)
      with false by (symmetry; apply Z.eqb_neq; lengths).
    assert (h = (prefix_str lefts ++ cur') ++ "."%char :: cur ++ t) as Hs'
      by (rewrite Hs; cbn [prefix_str]; reassoc).
    replace (rd h (Z.of_nat (length (prefix_str lefts ++ cur' ++ ["."%char]))
                   - 1)) with (@Ret ascii "."%char).
    2:{ symmetry. rewrite Hs' at 1.
        replace (Z.of_nat (length (prefix_str lefts ++ cur' ++ ["."%char]))
                 - 1)
          with (Z.of_nat (length (prefix_str lefts ++ cur'))) by lengths.
        apply rd_middle. }
    cbn [bind]. change (negb (is_dot ".")) with false. cbv iota.
    pose proof Hlefts as Hlefts'. simpl in Hlefts'.
    apply andb_prop in Hlefts'. destruct Hlefts' as [Hcur' _].
    destruct (label_ok_facts cur' Hcur') as (Hne' & _ & _).
    apply lookup_In in El.
    replace (Z.of_nat (length (prefix_str lefts ++ cur' ++ ["."%char])) - 1)
      with (Z.of_nat (length (prefix_str lefts)) + Z.of_nat (length cur'))
      by lengths.
    rewrite (IH sub cur' lefts ("."%char :: cur ++ t) h
               (Z.of_nat (length (prefix_str lefts))
                + Z.of_nat (length cur') - 1)); try assumption.
    + destruct (matched_labels sub (cur' :: lefts)) as [i|] eqn:Em;
        [|reflexivity].
      apply matched_labels_bound in Em. cbn [option_map].
      replace (S i - 1)%nat with (S (i - 1)) by lia. reflexivity.
    + apply height_child in El. lia.
    + now apply (well_labelled_child tree).
    + rewrite Hs'. reassoc.
    + right. destruct cur'; [congruence|]. split; lengths.
Qed.

Lemma strlen_no_nul (s : list ascii) :
  forallb (fun c => negb (is_nul c)) s = true -> strlen s = length s.
Proof.
  induction s as [|c r IH]; simpl; [reflexivity|].
  intros H. apply andb_prop in H. destruct H as [Hc Hr].
  apply negb_true_iff in Hc. rewrite Hc. f_equal. auto.
Qed.

Lemma cstr_no_nul (s : list ascii) :
  forallb (fun c => negb (is_nul c)) s = true -> cstr s = s.
Proof.
  intros H. unfold cstr. rewrite (strlen_no_nul s H). apply firstn_all.
Qed.

Lemma prefix_str_no_nul (lefts : list (list ascii)) :
  forallb label_ok lefts = true ->
  forallb (fun c => negb (is_nul c)) (prefix_str lefts) = true.
Proof.
  induction lefts as [|l lefts IH]; simpl; [reflexivity|].
  intros H. apply andb_prop in H. destruct H as [Hl Hr].
  destruct (label_ok_facts l Hl) as (_ & _ & Hn).
  rewrite !forallb_app, (IH Hr), Hn. reflexivity.
Qed.

Lemma hostname_no_nul (rls : list (list ascii)) :
  forallb label_ok rls = true ->
  forallb (fun c => negb (is_nul c)) (hostname_of rls) = true.
Proof.
  destruct rls as [|cur lefts]; [reflexivity|]. simpl.
  intros H. apply andb_prop in H. destruct H as [Hl Hr].
  destruct (label_ok_facts cur Hl) as (_ & _ & Hn).
  now rewrite forallb_app, (prefix_str_no_nul lefts Hr), Hn.
Qed.

(** A proper host name starts with a character of its leftmost label. *)
Lemma hostname_head (lefts : list (list ascii)) : forall cur tail,
  forallb label_ok (cur :: lefts) = true ->
  exists c r,
    prefix_str lefts ++ cur ++ tail = c :: r
    /\ is_dot c = false /\ is_nul c = false.
Proof.
  induction lefts as [|l lefts IH]; intros cur tail H.
  - simpl in H. rewrite andb_true_r in H.
    unfold label_ok in H. destruct cur as [|c r]; [discriminate|].
    simpl in H. apply andb_prop in H. destruct H as [H _].
    apply andb_prop in H. destruct H as [H1 H2].
    apply negb_true_iff in H1, H2. exists c, (r ++ tail). auto.
  - simpl in H. apply andb_prop in H. destruct H as [_ H].
    destruct (IH l ("."%char :: cur ++ tail)) as (c & r & E & F);
      [exact H|].
    exists c, r. split; [|exact F]. rewrite <- E. simpl. reassoc.
Qed.

Lemma dots_of_candidate (a : list (list ascii)) (cur : list ascii) :
  forallb (fun c => negb (is_dot c)) cur = true ->
  existsb is_dot (prefix_str a ++ cur)
  = match a with [] => false | _ :: _ => true end.
Proof.
  intros Hcur. destruct a as [|l a].
  - simpl. apply not_true_is_false. intros E.
    apply existsb_exists in E. destruct E as (x & Hx & Hd).
    rewrite forallb_forall in Hcur. specialize (Hcur x Hx).
    rewrite Hd in Hcur. discriminate.
  - apply existsb_exists. exists "."%char. split; [|reflexivity].
    simpl. rewrite !in_app_iff. left. right. right. now left.
Qed.

Lemma registered_labels_bound (tree : tldnode) (rls : list (list ascii))
    (drop : bool) (j : nat) :
  registered_labels tree rls drop = Some j -> (2 <= j <= length rls)%nat.
Proof.
  unfold registered_labels.
  destruct (matched_labels tree rls) as [i|] eqn:E; [|discriminate].
  apply matched_labels_bound in E.
  destruct (2 <=? i)%nat eqn:E2.
  - intros H. injection H as <-. apply Nat.leb_le in E2. lia.
  - destruct (length rls <=? 1)%nat eqn:E1; [discriminate|].
    destruct drop; [discriminate|]. intros H. injection H as <-.
    apply Nat.leb_gt in E1. lia.
Qed.

(** The host name is what stands to the left of the last [j] labels,
    followed by those labels. *)
Lemma hostname_split (cur : list ascii) (lefts : list (list ascii))
    (j : nat) :
  (1 <= j)%nat ->
  hostname_of (cur :: lefts)
  = prefix_str (skipn (j - 1) lefts) ++ hostname_of (firstn j (cur :: lefts)).
Proof.
  intros Hj. destruct j as [|j]; [lia|]. cbn [firstn hostname_of].
  rewrite Nat.sub_succ, Nat.sub_0_r.
  rewrite (prefix_str_split j lefts) at 1. now rewrite app_assoc.
Qed.

Lemma resolver_labels_offset (cur : list ascii) (lefts : list (list ascii))
    (tree : tldnode) (d : Z) :
  forallb label_ok (cur :: lefts) = true ->
  well_labelled tree = true ->
  Z.of_nat (length (hostname_of (cur :: lefts))) < 2 ^ 64 ->
  getRegisteredDomainDropI (hostname_of (cur :: lefts)) tree d
  = Ret (option_map
           (fun j => Z.of_nat (length (prefix_str (skipn (j - 1) lefts))))
           (registered_labels tree (cur :: lefts) (negb (d =? 0)))).
Proof.
  intros Hok Hw Hlen.
  pose proof (hostname_no_nul _ Hok) as Hnn.
  pose proof (strlen_no_nul _ Hnn) as HL.
  set (h := hostname_of (cur :: lefts)) in *.
  assert (h = prefix_str lefts ++ cur ++ []) as Hs
    by (unfold h; simpl; now rewrite app_nil_r).
  pose proof Hok as Hok'. simpl in Hok'. apply andb_prop in Hok'.
  destruct Hok' as [Hcur Hlefts].
  destruct (label_ok_facts cur Hcur) as (Hne & Hnd & _).
  assert (Z.of_nat (length h)
          = Z.of_nat (length (prefix_str lefts)) + Z.of_nat (length cur))
    as Hlenh by (rewrite Hs; lengths).
  unfold getRegisteredDomainDropI.
  (* the first character *)
  destruct (hostname_head lefts cur [] Hok) as (c0 & r0 & E0 & D0 & N0).
  rewrite <- Hs in E0.
  assert (rd h 0 = Ret c0) as ->
    by (rewrite rd_in_bounds by lia; now rewrite E0).
  cbn [bind]. rewrite D0, N0. cbn [orb]. rewrite HL.
  (* the last character *)
  assert (rd h (Z.of_nat (length h) - 1) = Ret (last cur NUL)) as ->.
  { rewrite Hs at 1. rewrite app_nil_r.
    rewrite (app_removelast_last NUL Hne) at 1. rewrite app_assoc.
    replace (Z.of_nat (length h) - 1)
      with (Z.of_nat (length (prefix_str lefts ++ removelast cur))).
    - apply rd_middle.
    - rewrite Hlenh. rewrite (app_removelast_last NUL Hne) at 2. lengths. }
  cbn [bind].
  assert (is_dot (last cur NUL) = false) as ->.
  { rewrite forallb_forall in Hnd. apply negb_true_iff, Hnd.
    rewrite (app_removelast_last NUL Hne) at 2.
    apply in_or_app. right. now left. }
  (* the loop *)
  rewrite Hlenh.
  rewrite (descend_labels (height tree) tree cur lefts [] h
             (Z.of_nat (length (prefix_str lefts)) + Z.of_nat (length cur)));
    try assumption; [|lia|now left].
  cbn [bind]. unfold registered_labels.
  destruct (matched_labels tree (cur :: lefts)) as [i|] eqn:Em;
    [|reflexivity].
  apply matched_labels_bound in Em. cbn [length] in Em.
  cbn [finish].
  (* the two-label check *)
  assert (strchr_dot h (Z.of_nat (length (prefix_str (skipn (i - 1) lefts))))
          = Ret (match firstn (i - 1) lefts with
                 | [] => false
                 | _ :: _ => true
                 end)) as ->.
  { unfold strchr_dot.
    assert (h = prefix_str (skipn (i - 1) lefts)
                ++ prefix_str (firstn (i - 1) lefts) ++ cur) as Hsplit.
    { unfold h. cbn [hostname_of].
      rewrite (prefix_str_split (i - 1) lefts) at 1.
      now rewrite app_assoc. }
    replace ((0 <=? Z.of_nat (length (prefix_str (skipn (i - 1) lefts))))
             && (Z.of_nat (length (prefix_str (skipn (i - 1) lefts)))
                 <=? Z.of_nat (length h))) with true.
    2:{ symmetry. rewrite andb_true_iff, !Z.leb_le.
        rewrite Hsplit at 1. split; [lia|lengths]. }
    f_equal. unfold cstr_at. rewrite Nat2Z.id.
    rewrite Hsplit at 1. rewrite skipn_app, skipn_all, Nat.sub_diag.
    cbn [skipn app]. rewrite cstr_no_nul.
    - now apply dots_of_candidate.
    - rewrite Hsplit in Hnn. rewrite forallb_app in Hnn.
      apply andb_prop in Hnn. now destruct Hnn. }
  cbn [bind].
  destruct (2 <=? i)%nat eqn:E2.
  - apply Nat.leb_le in E2.
    destruct (firstn (i - 1) lefts) as [|x xs] eqn:Ef; [|reflexivity].
    apply (f_equal (@length (list ascii))) in Ef.
    rewrite length_firstn in Ef. simpl in Ef. lia.
  - apply Nat.leb_gt in E2. assert (i = 1%nat) as -> by lia.
    cbn [Nat.sub firstn skipn].
    destruct lefts as [|l2 lefts2]; [reflexivity|].
    cbn [length prefix_str].
    replace (Z.of_nat (length (prefix_str lefts2 ++ l2 ++ ["."%char])) =? 0)
      with false by (symmetry; apply Z.eqb_neq; lengths).
    cbn [orb Nat.leb]. destruct (negb (d =? 0)); [reflexivity|].
    simpl in Hlefts. apply andb_prop in Hlefts. destruct Hlefts as [Hl2 _].
    destruct (label_ok_facts l2 Hl2) as (Hne2 & Hnd2 & _).
    assert (h = prefix_str lefts2 ++ l2 ++ "."%char :: cur) as Hs2
      by (unfold h; simpl; reassoc).
    rewrite Hs2 at 1.
    rewrite (label_start_at (prefix_str lefts2) l2 ("."%char :: cur)
               (Z.of_nat (length (prefix_str lefts2 ++ l2 ++ ["."%char])) - 2)
               Hnd2 (prefix_str_form lefts2)).
    + reflexivity.
    + right. destruct l2; [congruence|]. split; lengths.
Qed.

Lemma cstr_at_suffix (a b : list ascii) :
  forallb (fun c => negb (is_nul c)) (a ++ b) = true ->
  cstr_at (a ++ b) (Z.of_nat (length a)) = b.
Proof.
  intros H. unfold cstr_at.
  rewrite Nat2Z.id, skipn_app, skipn_all, Nat.sub_diag. cbn [skipn app].
  apply cstr_no_nul. rewrite forallb_app in H.
  apply andb_prop in H. now destruct H.
Qed.

(** The offset and the string of the result, for a host name made of
    proper labels. *)
Lemma resolver_labels_result (rls : list (list ascii)) (tree : tldnode)
    (drop_unknown : Z) :
  rls <> [] ->
  forallb label_ok rls = true ->
  well_labelled tree = true ->
  Z.of_nat (length (hostname_of rls)) < 2 ^ 64 ->
  getRegisteredDomainDropI (hostname_of rls) tree drop_unknown
  = Ret (option_map
           (fun j => Z.of_nat (length (hostname_of rls))
                     - Z.of_nat (length (hostname_of (firstn j rls))))
           (registered_labels tree rls (negb (drop_unknown =? 0))))
  /\ result_string (hostname_of rls)
       (getRegisteredDomainDropI (hostname_of rls) tree drop_unknown)
     = Ret (option_map (fun j => hostname_of (firstn j rls))
              (registered_labels tree rls (negb (drop_unknown =? 0)))).
Proof.
  intros Hne Hok Hw Hlen. destruct rls as [|cur lefts]; [congruence|].
  unfold result_string.
  rewrite (resolver_labels_offset cur lefts tree drop_unknown Hok Hw Hlen).
  destruct (registered_labels tree (cur :: lefts)
              (negb (drop_unknown =? 0))) as [j|] eqn:Er;
    [|split; reflexivity].
  apply registered_labels_bound in Er.
  assert (1 <= j)%nat as Hj by lia.
  cbn [option_map bind]. split; f_equal; f_equal.
  - rewrite (hostname_split cur lefts j Hj) at 1. lengths.
  - pose proof (hostname_no_nul _ Hok) as Hnn.
    rewrite (hostname_split cur lefts j Hj) in Hnn |- * at 1.
    now apply cstr_at_suffix.
Qed.

(** X7: on a host name made of non-empty labels without dots and NULs, the
    resolver computes [registered_labels]: it returns the last [j] labels of
    the host name, where [j] is the number of labels the descent through
    the tree stopped at, or two when it stopped at the first label, a second
    one exists and [drop_unknown] is zero; it returns a null pointer when
    the descent uses up all labels, or stops at the first label and the
    host name has one label only or [drop_unknown] is set. *)
Theorem resolver_on_labels (rls : list (list ascii)) (tree : tldnode)
    (drop_unknown : Z) :
  rls <> [] ->
  forallb label_ok rls = true ->
  well_labelled tree = true ->
  Z.of_nat (length (hostname_of rls)) < 2 ^ 64 ->
  getRegisteredDomainDrop (hostname_of rls) tree drop_unknown
  = Ret (option_map
           (fun j => Z.of_nat (length (hostname_of rls))
                     - Z.of_nat (length (hostname_of (firstn j rls))))
           (registered_labels tree rls (negb (drop_unknown =? 0))))
  /\ result_string (hostname_of rls)
       (getRegisteredDomainDrop (hostname_of rls) tree drop_unknown)
     = Ret (option_map (fun j => hostname_of (firstn j rls))
              (registered_labels tree rls (negb (drop_unknown =? 0)))).
Proof.
  intros Hne Hok Hw Hlen. unfold getRegisteredDomainDrop.
  now apply resolver_labels_result.
Qed.

Lemma resolver_on_labels_witness :
  getRegisteredDomainDrop
    (hostname_of [cs "uk"; cs "co"; cs "example"; cs "www"]) scenario_tree 0
  = Ret (option_map
           (fun j =>
              Z.of_nat (length (hostname_of
                                  [cs "uk"; cs "co"; cs "example"; cs "www"]))
              - Z.of_nat (length (hostname_of
                                    (firstn j [cs "uk"; cs "co"; cs "example";
                                               cs "www"]))))
           (registered_labels scenario_tree
              [cs "uk"; cs "co"; cs "example"; cs "www"] (negb (0 =? 0))))
  /\ result_string (hostname_of [cs "uk"; cs "co"; cs "example"; cs "www"])
       (getRegisteredDomainDrop
          (hostname_of [cs "uk"; cs "co"; cs "example"; cs "www"])
          scenario_tree 0)
     = Ret (option_map
              (fun j => hostname_of (firstn j [cs "uk"; cs "co"; cs "example";
                                               cs "www"]))
              (registered_labels scenario_tree
                 [cs "uk"; cs "co"; cs "example"; cs "www"] (negb (0 =? 0)))).
Proof.
  apply (resolver_on_labels [cs "uk"; cs "co"; cs "example"; cs "www"]
           scenario_tree 0).
  - discriminate.
  - reflexivity.
  - reflexivity.
  - vm_compute. reflexivity.
Defined.

(** ** Idempotence *)

Lemma matched_labels_firstn (rls : list (list ascii)) : forall tree i,
  matched_labels tree rls = Some i ->
  matched_labels tree (firstn i rls) = Some i.
Proof.
  induction rls as [|cur lefts IH]; intros tree i H; [discriminate|].
  pose proof (matched_labels_bound _ _ _ H) as Hb.
  destruct i as [|i]; [lia|]. cbn [firstn]. simpl in H |- *.
  destruct (lookup tree cur) as [sub|]; [|exact H].
  destruct (only_child_is_exception sub); [exact H|].
  destruct lefts as [|l lefts]; [discriminate|].
  destruct (matched_labels sub (l :: lefts)) as [k|] eqn:E; [|discriminate].
  injection H as <-. pose proof (matched_labels_bound _ _ _ E) as Hk.
  rewrite (IH sub k E). destruct k as [|k]; [lia|]. reflexivity.
Qed.

Lemma matched_labels_cons (tree : tldnode) (cur : list ascii)
    (lefts : list (list ascii)) :
  matched_labels tree (cur :: lefts)
  = match lookup tree cur with
    | None => Some 1%nat
    | Some subtree =>
        if only_child_is_exception subtree then Some 1%nat
        else match lefts with
             | [] => None
             | _ :: _ => option_map S (matched_labels subtree lefts)
             end
    end.
Proof. reflexivity. Qed.

Lemma registered_labels_firstn (tree : tldnode) (rls : list (list ascii))
    (drop : bool) (j : nat) :
  registered_labels tree rls drop = Some j ->
  registered_labels tree (firstn j rls) drop = Some j.
Proof.
  unfold registered_labels.
  destruct (matched_labels tree rls) as [i|] eqn:E; [|discriminate].
  pose proof (matched_labels_bound _ _ _ E) as Hb.
  destruct (2 <=? i)%nat eqn:E2.
  - intros H. injection H as <-.
    now rewrite (matched_labels_firstn rls tree i E), E2.
  - apply Nat.leb_gt in E2. assert (i = 1%nat) as -> by lia.
    destruct (length rls <=? 1)%nat eqn:E1; [discriminate|].
    destruct drop; [discriminate|]. intros H. injection H as <-.
    apply Nat.leb_gt in E1.
    destruct rls as [|cur [|l2 lefts]]; simpl in E1; try lia.
    cbn [firstn]. rewrite matched_labels_cons in E |- *.
    destruct (lookup tree cur) as [sub|]; [|reflexivity].
    destruct (only_child_is_exception sub); [reflexivity|].
    destruct (matched_labels sub (l2 :: lefts)) as [k|] eqn:Ek;
      [|discriminate].
    apply matched_labels_bound in Ek. injection E as E. lia.
Qed.

Lemma forallb_firstn {A : Type} (f : A -> bool) (n : nat) (l : list A) :
  forallb f l = true -> forallb f (firstn n l) = true.
Proof.
  intros H. rewrite <- (firstn_skipn n l), forallb_app in H.
  apply andb_prop in H. now destruct H.
Qed.

(** X8: for a proper host name, the registered domain is its own
    registered domain: the resolver applied to a result returns the whole
    of it. *)
Theorem registered_domain_idempotent (rls : list (list ascii))
    (tree : tldnode) (drop_unknown off : Z) :
  forallb label_ok rls = true ->
  well_labelled tree = true ->
  Z.of_nat (length (hostname_of rls)) < 2 ^ 64 ->
  getRegisteredDomainDrop (hostname_of rls) tree drop_unknown
  = Ret (Some off) ->
  getRegisteredDomainDrop (cstr_at (hostname_of rls) off) tree drop_unknown
  = Ret (Some 0).
Proof.
  intros Hok Hw Hlen H. unfold getRegisteredDomainDrop in *.
  destruct rls as [|cur lefts]; [discriminate|].
  rewrite (resolver_labels_offset cur lefts tree drop_unknown Hok Hw Hlen)
    in H.
  destruct (registered_labels tree (cur :: lefts)
              (negb (drop_unknown =? 0))) as [j|] eqn:Er; [|discriminate].
  injection H as <-.
  pose proof (registered_labels_bound _ _ _ _ Er) as Hb.
  assert (1 <= j)%nat as Hj by lia.
  pose proof (hostname_no_nul _ Hok) as Hnn.
  pose proof (hostname_split cur lefts j Hj) as Hsplit.
  assert (cstr_at (hostname_of (cur :: lefts))
            (Z.of_nat (length (prefix_str (skipn (j - 1) lefts))))
          = hostname_of (firstn j (cur :: lefts))) as ->.
  { rewrite Hsplit in Hnn |- * at 1. now apply cstr_at_suffix. }
  apply registered_labels_firstn in Er.
  destruct j as [|j]; [lia|]. cbn [firstn] in *.
  rewrite resolver_labels_offset.
  - rewrite Er. cbn [option_map]. rewrite Nat.sub_succ, Nat.sub_0_r.
    rewrite skipn_all2 by (rewrite length_firstn; lia). reflexivity.
  - apply (forallb_firstn label_ok (S j) (cur :: lefts) Hok).
  - assumption.
  - rewrite Hsplit in Hlen. rewrite length_app in Hlen.
    cbn [firstn] in Hlen. lia.
Qed.

Lemma registered_domain_idempotent_witness :
  getRegisteredDomainDrop
    (cstr_at (hostname_of [cs "uk"; cs "co"; cs "example"; cs "www"]) 4)
    scenario_tree 0
  = Ret (Some 0).
Proof.
  apply (registered_domain_idempotent
           [cs "uk"; cs "co"; cs "example"; cs "www"] scenario_tree 0 4).
  - reflexivity.
  - reflexivity.
  - vm_compute. reflexivity.
  - vm_compute. reflexivity.
Defined.

Example hostname_of_labels :
  hostname_of [cs "uk"; cs "co"; cs "example"; cs "www"]
  = cs "www.example.co.uk".
Proof. reflexivity. Qed.

(** ** Host names with a trailing dot, in general *)






(** * Further properties of the decoder *)

Lemma copied_label_bare (m : bool) (l : list ascii) :
  bare_mark m l = true -> copied_label m l = l.
Proof.
  unfold bare_mark, copied_label, run. destruct m; simpl.
  - destruct l; [reflexivity|discriminate].
  - intros _. rewrite Nat.sub_0_r. apply firstn_all.
Qed.

Lemma decoded_intended (e : enc) :
  marks_bare e = true -> decoded_node e = intended_node e.
Proof.
  induction e as [m l|m l cnt k ks IHk IHks] using enc_induction;
    cbn [marks_bare decoded_node intended_node]; intros H.
  - rewrite (copied_label_bare m l H). now destruct m.
  - rewrite !andb_true_iff in H. destruct H as [[Hb Hk] Hks].
    rewrite (copied_label_bare m l Hb), (IHk Hk).
    assert (map decoded_node ks = map intended_node ks) as ->.
    { apply map_ext_in. intros x Hx. rewrite Forall_forall in IHks.
      apply IHks; [assumption|]. rewrite forallb_forall in Hks. now apply Hks. }
    now destruct m.
Qed.

(** X10: a table in which the mark only stands alone is loaded as the tree
    it encodes: every node gets its label, the exception flag of its mark
    and its children, in order. *)
Theorem loadTldTree_round_trip (m : bool) (l cnt : list ascii) (k : enc)
    (ks : list enc) :
  wf_enc (EBlock m l cnt k ks) = true ->
  marks_bare (EBlock m l cnt k ks) = true ->
  loadTldTree (render (EBlock m l cnt k ks))
  = Ret (intended_node (EBlock m l cnt k ks)).
Proof.
  intros Hwf Hb. rewrite (loadTldTree_block m l cnt k ks Hwf).
  f_equal. now apply decoded_intended.
Qed.

Lemma loadTldTree_round_trip_witness :
  loadTldTree
    (render (EBlock false (cs "root") (cs "2") (ELeaf false (cs "com"))
               [EBlock false (cs "uk") (cs "2") (ELeaf false (cs "*"))
                  [EBlock false (cs "parliament") (cs "1") (ELeaf true [])
                     []]]))
  = Ret (intended_node
           (EBlock false (cs "root") (cs "2") (ELeaf false (cs "com"))
              [EBlock false (cs "uk") (cs "2") (ELeaf false (cs "*"))
                 [EBlock false (cs "parliament") (cs "1") (ELeaf true [])
                    []]])).
Proof.
  apply (loadTldTree_round_trip false (cs "root") (cs "2")
           (ELeaf false (cs "com"))
           [EBlock false (cs "uk") (cs "2") (ELeaf false (cs "*"))
              [EBlock false (cs "parliament") (cs "1") (ELeaf true []) []]]);
    reflexivity.
Defined.

(** X11: a label that is ended by a comma or a closing parenthesis is
    decoded as a node without children, and the position returned is that
    of the delimiter itself, not the one after it; without a mark the
    stored label is the label. *)
Theorem leaf_decoded (fuel : nat) (m : bool) (l : list ascii) (d : ascii)
    (pre post : list ascii) :
  forallb label_char l = true ->
  is_delim d = true -> Ascii.eqb d "(" = false ->
  (length (run m l) + 1 <= fuel)%nat ->
  let s := pre ++ run m l ++ d :: post in
  let stop := Z.of_nat (length pre) + Z.of_nat (length (run m l)) in
  readTldString fuel s (Z.of_nat (length s)) (Z.of_nat (length pre))
  = Ret (mk_tldnode (Some (copied_label m l)) (mark_attr m) [], stop)
  /\ rd s stop = Ret d
  /\ (m = false -> copied_label m l = l).
Proof.
  intros Hl Hd Hd' Hfuel s stop. split; [|split].
  - pose proof (decode_enc (ELeaf m l) Hl fuel pre (d :: post)) as D.
    cbn [render decoded_node] in D. unfold s, stop. rewrite D.
    + now destruct m.
    + exact Hfuel.
    + intros _. exists d, post. auto.
  - unfold s, stop. rewrite app_assoc, <- Nat2Z.inj_add, <- length_app.
    apply rd_middle.
  - intros ->. apply copied_label_bare. reflexivity.
Qed.

Lemma leaf_decoded_witness :
  let s := cs "uk(2:" ++ run false (cs "co") ++ ","%char :: cs "*)" in
  let stop := Z.of_nat (length (cs "uk(2:"))
              + Z.of_nat (length (run false (cs "co"))) in
  readTldString 10 s (Z.of_nat (length s)) (Z.of_nat (length (cs "uk(2:")))
  = Ret (mk_tldnode (Some (copied_label false (cs "co"))) (mark_attr false) [],
         stop)
  /\ rd s stop = Ret ","%char
  /\ (false = false -> copied_label false (cs "co") = cs "co").
Proof.
  apply (leaf_decoded 10 false (cs "co") "," (cs "uk(2:") (cs "*)"));
    try reflexivity.
  apply Nat.leb_le. reflexivity.
Defined.

(** X12: for every non-empty label, the run of the mark and the label is
    stored as the mark followed by the label without its last character,
    with the exception flag set. *)
Theorem marked_label_stored (fuel : nat) (l : list ascii) (d : ascii)
    (pre post : list ascii) :
  l <> [] ->
  forallb label_char l = true ->
  is_delim d = true -> Ascii.eqb d "(" = false ->
  (length l + 2 <= fuel)%nat ->
  readTldString fuel (pre ++ ("!"%char :: l) ++ d :: post)
    (Z.of_nat (length (pre ++ ("!"%char :: l) ++ d :: post)))
    (Z.of_nat (length pre))
  = Ret (mk_tldnode (Some ("!"%char :: removelast l)) THIS [],
         Z.of_nat (length pre) + 1 + Z.of_nat (length l)).
Proof.
  intros Hne Hl Hd Hd' Hfuel.
  rewrite (marked_leaf_decoded l d fuel pre post Hl Hd Hd' Hfuel).
  destruct (copied_label_marked l Hne Hl) as [-> _]. reflexivity.
Qed.

Lemma marked_label_stored_witness :
  readTldString 20 (cs "uk(2:*," ++ ("!"%char :: cs "parliament")
                      ++ ")"%char :: [])
    (Z.of_nat (length (cs "uk(2:*," ++ ("!"%char :: cs "parliament")
                         ++ ")"%char :: [])))
    (Z.of_nat (length (cs "uk(2:*,")))
  = Ret (mk_tldnode (Some ("!"%char :: removelast (cs "parliament"))) THIS [],
         Z.of_nat (length (cs "uk(2:*,")) + 1
         + Z.of_nat (length (cs "parliament"))).
Proof.
  apply (marked_label_stored 20 (cs "parliament") ")" (cs "uk(2:*,") []);
    try reflexivity; try discriminate.
  apply Nat.leb_le. reflexivity.
Defined.

(** ** Loading and resolving *)

Lemma strlen_copied_label (m : bool) (l : list ascii) :
  (strlen (copied_label m l) <= length (run m l))%nat.
Proof.
  pose proof (strlen_le_length (copied_label m l)) as H.
  unfold copied_label in *. rewrite length_firstn in H. lia.
Qed.

Lemma decoded_well_labelled (e : enc) :
  Z.of_nat (length (render e)) < 2 ^ 64 - 1 ->
  well_labelled (decoded_node e) = true.
Proof.
  induction e as [m l|m l cnt k ks IHk IHks] using enc_induction; intros H.
  - cbn [decoded_node well_labelled forallb render] in *.
    rewrite andb_true_r. apply Z.ltb_lt.
    pose proof (strlen_copied_label m l). lia.
  - pose proof (render_child_le m l cnt k ks) as Hle.
    cbn [decoded_node well_labelled forallb].
    rewrite !andb_true_iff. split; [|split].
    + apply Z.ltb_lt. pose proof (strlen_copied_label m l) as Hs.
      cbn [render] in H. rewrite length_app in H. lia.
    + apply IHk. specialize (Hle k (or_introl eq_refl)). lia.
    + apply forallb_forall. intros x Hx. apply in_map_iff in Hx.
      destruct Hx as (y & <- & Hy). rewrite Forall_forall in IHks.
      apply IHks; [assumption|].
      specialize (Hle y (or_intror Hy)). lia.
Qed.

(** X13: a well-formed table is loaded as a tree on which the resolver
    returns normally for every host name and every flag. *)
Theorem loaded_tree_resolves (m : bool) (l cnt : list ascii) (k : enc)
    (ks : list enc) :
  wf_enc (EBlock m l cnt k ks) = true ->
  Z.of_nat (length (render (EBlock m l cnt k ks))) < 2 ^ 64 - 1 ->
  exists tree,
    loadTldTree (render (EBlock m l cnt k ks)) = Ret tree
    /\ forall hostname drop_unknown,
         exists r,
           getRegisteredDomainDrop hostname tree drop_unknown = Ret r.
Proof.
  intros Hwf Hlen. exists (decoded_node (EBlock m l cnt k ks)).
  split; [now apply loadTldTree_block|].
  intros hostname d. apply resolver_defined.
  now apply decoded_well_labelled.
Qed.

Lemma loaded_tree_resolves_witness :
  exists tree,
    loadTldTree
      (render (EBlock false (cs "root") (cs "2") (ELeaf false (cs "com"))
                 [ELeaf true (cs "ab")])) = Ret tree
    /\ forall hostname drop_unknown,
         exists r,
           getRegisteredDomainDrop hostname tree drop_unknown = Ret r.
Proof.
  apply (loaded_tree_resolves false (cs "root") (cs "2")
           (ELeaf false (cs "com")) [ELeaf true (cs "ab")]).
  - reflexivity.
  - vm_compute. reflexivity.
Defined.

(** ** Plain rules and unknown suffixes *)

(** X14: when the rightmost label of a proper host name is found in the
    tree as a node without children, the registered domain is the last two
    labels, whatever [drop_unknown] is; a host name of that one label has
    none. *)
Theorem plain_rule_two_labels (cur l2 : list ascii)
    (lefts : list (list ascii)) (tree sub : tldnode) (drop_unknown : Z) :
  forallb label_ok (cur :: l2 :: lefts) = true ->
  well_labelled tree = true ->
  Z.of_nat (length (hostname_of (cur :: l2 :: lefts))) < 2 ^ 64 ->
  lookup tree cur = Some sub ->
  subnodes sub = [] ->
  result_string (hostname_of (cur :: l2 :: lefts))
    (getRegisteredDomainDrop (hostname_of (cur :: l2 :: lefts)) tree
       drop_unknown)
  = Ret (Some (l2 ++ "."%char :: cur))
  /\ getRegisteredDomainDrop cur tree drop_unknown = Ret None.
Proof.
  intros Hok Hw Hlen Hl Hsub. unfold getRegisteredDomainDrop.
  assert (only_child_is_exception sub = false) as Hex
    by (unfold only_child_is_exception; now rewrite Hsub).
  split.
  - destruct (resolver_labels_result (cur :: l2 :: lefts) tree drop_unknown)
      as [_ ->]; try assumption; [discriminate|].
    unfold registered_labels. rewrite matched_labels_cons, Hl, Hex.
    rewrite matched_labels_cons. unfold lookup at 1. rewrite Hsub.
    cbn. now rewrite <- app_assoc.
  - simpl in Hok. apply andb_prop in Hok. destruct Hok as [Hcur _].
    destruct (resolver_labels_result [cur] tree drop_unknown) as [E _];
      try assumption.
    + discriminate.
    + simpl. now rewrite Hcur.
    + simpl in *. rewrite !length_app in Hlen. lia.
    + simpl in E. rewrite E.
      unfold registered_labels. rewrite matched_labels_cons, Hl, Hex.
      reflexivity.
Qed.

Lemma plain_rule_two_labels_witness :
  result_string (hostname_of [cs "com"; cs "example"; cs "www"])
    (getRegisteredDomainDrop (hostname_of [cs "com"; cs "example"; cs "www"])
       scenario_tree 1)
  = Ret (Some (cs "example" ++ "."%char :: cs "com"))
  /\ getRegisteredDomainDrop (cs "com") scenario_tree 1 = Ret None.
Proof.
  apply (plain_rule_two_labels (cs "com") (cs "example") [cs "www"]
           scenario_tree (leaf "com") 1); reflexivity.
Defined.

(** X15: when the rightmost label of a proper host name with at least two
    labels matches no child of the root, the result is the last two labels
    if [drop_unknown] is zero and a null pointer otherwise. *)
Theorem unknown_suffix_policy (cur l2 : list ascii)
    (lefts : list (list ascii)) (tree : tldnode) (drop_unknown : Z) :
  forallb label_ok (cur :: l2 :: lefts) = true ->
  well_labelled tree = true ->
  Z.of_nat (length (hostname_of (cur :: l2 :: lefts))) < 2 ^ 64 ->
  lookup tree cur = None ->
  result_string (hostname_of (cur :: l2 :: lefts))
    (getRegisteredDomainDrop (hostname_of (cur :: l2 :: lefts)) tree
       drop_unknown)
  = Ret (if drop_unknown =? 0 then Some (l2 ++ "."%char :: cur) else None).
Proof.
  intros Hok Hw Hlen Hl. unfold getRegisteredDomainDrop.
  destruct (resolver_labels_result (cur :: l2 :: lefts) tree drop_unknown)
    as [_ ->]; try assumption; [discriminate|].
  unfold registered_labels. rewrite matched_labels_cons, Hl.
  destruct (drop_unknown =? 0); cbn; [now rewrite <- app_assoc|reflexivity].
Qed.

Lemma unknown_suffix_policy_witness :
  result_string (hostname_of [cs "xx"; cs "something"; cs "www"])
    (getRegisteredDomainDrop
       (hostname_of [cs "xx"; cs "something"; cs "www"])
       scenario_tree_no_fallback 0)
  = Ret (if 0 =? 0 then Some (cs "something" ++ "."%char :: cs "xx")
         else None).
Proof.
  apply (unknown_suffix_policy (cs "xx") (cs "something") [cs "www"]
           scenario_tree_no_fallback 0); reflexivity.
Defined.

(** ** Progress and termination of the decoder *)

Lemma read_children_progress (read_child : Z -> outcome (tldnode * Z)) :
  (forall p r q, read_child p = Ret (r, q) -> p <= q) ->
  forall n pos kids q,
    read_children read_child n pos = Ret (kids, q) ->
    pos <= q /\ length kids = n.
Proof.
  intros Hchild. induction n as [|n IH]; intros pos kids q H; simpl in H.
  - injection H as <- <-. split; [lia|reflexivity].
  - bind_step H as r Hr. bind_step H as rs Hrs. injection H as <- <-.
    destruct r as [k p1]. destruct rs as [ks p2]. cbn [fst snd] in *.
    apply Hchild in Hr. apply IH in Hrs. simpl. split; [lia|].
    f_equal. tauto.
Qed.

Lemma readTldString_loop_progress (s : list ascii) (len : Z) (fuel : nat) :
  forall node start state pos r q,
    readTldString_loop fuel s len node start state pos = Ret (r, q) ->
    pos <= q.
Proof.
  induction fuel as [|fuel IH]; intros node start state pos r q H;
    [discriminate|].
  rewrite readTldString_loop_unfold in H. bind_step H as c Hc.
  cbv zeta in H.
  assert (forall node' start' state',
            (if pos + 1 <? len
             then readTldString_loop fuel s len node' start' state' (pos + 1)
             else Ret (node', pos + 1)) = Ret (r, q) -> pos <= q) as Hnext.
  { intros node' start' state' Hn. destruct (pos + 1 <? len).
    - apply IH in Hn. lia.
    - injection Hn as _ <-. lia. }
  destruct (state =? 0).
  - destruct (is_delim c).
    + bind_step H as d Hd. destruct (Ascii.eqb c "(").
      * now apply Hnext in H.
      * injection H as _ <-. lia.
    + destruct (Ascii.eqb c "!"); now apply Hnext in H.
  - destruct (state =? 1); [|now apply Hnext in H].
    destruct (Ascii.eqb c ":"); [|now apply Hnext in H].
    bind_step H as buf Hbuf. bind_step H as n Hn. bind_step H as rs Hrs.
    injection H as _ <-. destruct rs as [kids p]. cbn [snd].
    apply read_children_progress in Hrs; [lia|].
    intros p0 r0 q0 H0. now apply IH in H0.
Qed.

Lemma read_children_not_OutOfFuel
    (read_child : Z -> outcome (tldnode * Z)) (bound : Z) :
  (forall p r q, read_child p = Ret (r, q) -> p <= q) ->
  (forall p, bound < p -> read_child p <> OutOfFuel) ->
  forall n pos, bound <= pos -> read_children read_child n pos <> OutOfFuel.
Proof.
  intros Hprog Hfuel. induction n as [|n IH]; intros pos Hpos; simpl;
    [discriminate|].
  apply bind_not_OutOfFuel; [apply Hfuel; lia|].
  intros [k p1] Hr. apply Hprog in Hr. cbn [fst snd].
  apply bind_not_OutOfFuel; [apply IH; lia|]. discriminate.
Qed.

Lemma atoi_not_OutOfFuel (buf : list ascii) : atoi buf <> OutOfFuel.
Proof. unfold atoi. destruct (_ && _); discriminate. Qed.

Lemma readTldString_loop_not_OutOfFuel (s : list ascii) (fuel : nat) :
  forall node start state pos,
    (1 <= fuel)%nat ->
    Z.of_nat (length s) - pos + 1 <= Z.of_nat fuel ->
    readTldString_loop fuel s (Z.of_nat (length s)) node start state pos
    <> OutOfFuel.
Proof.
  induction fuel as [|fuel IH]; intros node start state pos H1 Hf; [lia|].
  rewrite readTldString_loop_unfold.
  apply bind_not_OutOfFuel; [apply rd_not_OutOfFuel|]. intros c Hc.
  cbv zeta. pose proof (rd_Ret _ _ _ Hc) as [Hb Hnth].
  assert (forall node' start' state',
            (if pos + 1 <? Z.of_nat (length s)
             then readTldString_loop fuel s (Z.of_nat (length s)) node' start'
                    state' (pos + 1)
             else Ret (node', pos + 1)) <> OutOfFuel) as Hnext.
  { intros node' start' state'.
    destruct (pos + 1 <? Z.of_nat (length s)) eqn:E; [|discriminate].
    apply Z.ltb_lt in E. apply IH; lia. }
  destruct (state =? 0).
  - destruct (is_delim c).
    + apply bind_not_OutOfFuel; [apply bytes_at_not_OutOfFuel|].
      intros d _. destruct (Ascii.eqb c "("); [apply Hnext|discriminate].
    + destruct (Ascii.eqb c "!"); apply Hnext.
  - destruct (state =? 1); [|apply Hnext].
    destruct (Ascii.eqb c ":") eqn:Ec; [|apply Hnext].
    apply Ascii.eqb_eq in Ec. rewrite Ec in Hnth.
    assert (pos < Z.of_nat (length s)) as Hlt.
    { destruct (Z.eq_dec pos (Z.of_nat (length s))) as [E|E]; [|lia].
      rewrite E, Nat2Z.id, nth_overflow in Hnth by lia. discriminate. }
    apply bind_not_OutOfFuel; [apply bytes_at_not_OutOfFuel|]. intros buf _.
    apply bind_not_OutOfFuel; [apply atoi_not_OutOfFuel|]. intros n _.
    apply bind_not_OutOfFuel; [|discriminate].
    apply (read_children_not_OutOfFuel _ pos); [| |lia].
    + intros p r q H. now apply readTldString_loop_progress in H.
    + intros p Hp. apply IH; lia.
Qed.

Lemma readTldString_loop_not_Abort (s : list ascii) (len : Z) (fuel : nat) :
  forall node start state pos,
    readTldString_loop fuel s len node start state pos <> Abort.
Proof.
  induction fuel as [|fuel IH]; intros node start state pos; [discriminate|].
  rewrite readTldString_loop_unfold.
  apply bind_not_Abort; [apply rd_not_Abort|]. intros c _. cbv zeta.
  assert (forall node' start' state',
            (if pos + 1 <? len
             then readTldString_loop fuel s len node' start' state' (pos + 1)
             else Ret (node', pos + 1)) <> Abort) as Hnext
    by (intros; destruct (pos + 1 <? len); [apply IH|discriminate]).
  destruct (state =? 0).
  - destruct (is_delim c).
    + apply bind_not_Abort; [apply bytes_at_not_Abort|].
      intros d _. destruct (Ascii.eqb c "("); [apply Hnext|discriminate].
    + destruct (Ascii.eqb c "!"); apply Hnext.
  - destruct (state =? 1); [|apply Hnext].
    destruct (Ascii.eqb c ":"); [|apply Hnext].
    apply bind_not_Abort; [apply bytes_at_not_Abort|]. intros buf _.
    apply bind_not_Abort;
      [unfold atoi; destruct (_ && _); discriminate|]. intros n _.
    apply bind_not_Abort; [|discriminate].
    generalize pos. induction (Z.to_nat (to_unsigned n)) as [|k IHk];
      intros p; simpl; [discriminate|].
    apply bind_not_Abort; [apply IH|]. intros r _.
    apply bind_not_Abort; [apply IHk|]. discriminate.
Qed.

(** X16: the decoder never moves backwards and always terminates: the
    position [readTldString] returns is not before the one it started at,
    and on every input [loadTldTree] ends, by a return or by a read outside
    the table, within the recursion depth the length of the table allows;
    it never calls [abort()]. *)
Theorem decoder_terminates (tldString : list ascii) :
  loadTldTree tldString <> OutOfFuel
  /\ loadTldTree tldString <> Abort
  /\ forall fuel len pos node q,
       readTldString fuel tldString len pos = Ret (node, q) -> pos <= q.
Proof.
  split; [|split].
  - unfold loadTldTree, readTldString.
    apply bind_not_OutOfFuel; [|discriminate].
    apply readTldString_loop_not_OutOfFuel; lia.
  - unfold loadTldTree, readTldString.
    apply bind_not_Abort; [|discriminate].
    apply readTldString_loop_not_Abort.
  - intros fuel len pos node q H. unfold readTldString in H.
    now apply readTldString_loop_progress in H.
Qed.

Lemma decoder_terminates_witness :
  loadTldTree scenario_tldString <> OutOfFuel
  /\ loadTldTree scenario_tldString <> Abort
  /\ 11 <= 34.
Proof.
  destruct (decoder_terminates scenario_tldString) as (H1 & H2 & H3).
  split; [exact H1|]. split; [exact H2|].
  apply (H3 40%nat 37 11 uk_subtree 34). vm_compute. reflexivity.
Defined.

(** * The tree printer *)

Lemma strlen_cstr (s : list ascii) : strlen (cstr s) = strlen s.
Proof.
  unfold cstr. induction s as [|c r IH]; simpl; [reflexivity|].
  destruct (is_nul c) eqn:E; simpl; [reflexivity|]. now rewrite E, IH.
Qed.

Lemma indent_Ret (spacer dest : list ascii) :
  indent spacer = Ret dest ->
  Z.of_nat (strlen spacer) <= 97
  /\ strlen dest = (2 + strlen spacer)%nat.
Proof.
  unfold indent. destruct (_ <=? 100) eqn:E; [|discriminate].
  apply Z.leb_le in E. intros H. injection H as <-.
  split; [lia|]. simpl. now rewrite strlen_cstr.
Qed.

Lemma print_children_defined (f : tldnode -> outcome (list ascii))
    (l : list tldnode) :
  (forall c, In c l -> exists o, f c = Ret o) ->
  exists os, print_children f l = Ret os.
Proof.
  induction l as [|c l IH]; intros H; simpl; [eauto|].
  destruct (H c (or_introl eq_refl)) as [o ->].
  destruct IH as [os ->]; [intros x Hx; apply H; now right|].
  simpl. eauto.
Qed.

Lemma print_children_Ret (f : tldnode -> outcome (list ascii))
    (l : list tldnode) (os : list ascii) :
  print_children f l = Ret os ->
  forall c, In c l -> exists o, f c = Ret o.
Proof.
  revert os. induction l as [|x l IH]; intros os H c Hc; [contradiction|].
  simpl in H. bind_step H as o Ho. bind_step H as os' Hos.
  destruct Hc as [<-|Hc]; [eauto|]. now apply (IH os').
Qed.

Lemma tallest_child (d : option (list ascii)) (a : attr_t) (x : tldnode)
    (l : list tldnode) :
  exists c, In c (x :: l) /\ height (mk_tldnode d a (x :: l)) = S (height c).
Proof.
  cbn [height]. induction l as [|y l IH].
  - exists x. split; [now left|]. simpl. lia.
  - destruct IH as (c & Hc & E). injection E as E. simpl in E |- *.
    destruct (Nat.le_gt_cases (height y) (height c)) as [Hle|Hgt].
    + exists c. split; [destruct Hc as [<-|Hc]; [now left|right; now right]|].
      lia.
    + exists y. split; [right; now left|]. lia.
Qed.

Section PrintBounds.
Variable null_s : outcome (list ascii).

Lemma printTldTreeI_bound (n : nat) : forall node spacer out,
  (height node <= n)%nat ->
  printTldTreeI null_s node spacer = Ret out ->
  subnodes node = []
  \/ Z.of_nat (strlen spacer) + 2 * Z.of_nat (height node) <= 101.
Proof.
  induction n as [|n IH]; intros node spacer out Hh H.
  - destruct node; simpl in Hh; lia.
  - destruct node as [d a [|x l]]; [now left|right].
    cbn [printTldTreeI] in H. bind_step H as ds Hds. bind_step H as rest Hr.
    destruct (tallest_child d a x l) as (c & Hc & E).
    destruct (print_children_Ret _ _ _ Hr c Hc) as [o Ho].
    bind_step Ho as dest Hdest. apply indent_Ret in Hdest.
    destruct Hdest as [H97 Hlen].
    apply IH in Ho; [|lia]. rewrite E.
    destruct Ho as [Ho|Ho].
    + destruct c as [dc ac lc]. simpl in Ho. subst lc. simpl. lia.
    + lia.
Qed.

Lemma printTldTreeI_defined (x : list ascii) (n : nat) :
  null_s = Ret x ->
  forall node spacer,
    (height node <= n)%nat ->
    subnodes node = []
    \/ Z.of_nat (strlen spacer) + 2 * Z.of_nat (height node) <= 101 ->
    exists out, printTldTreeI null_s node spacer = Ret out.
Proof.
  intros Hnull. induction n as [|n IH]; intros node spacer Hh Hb.
  - destruct node; simpl in Hh; lia.
  - destruct node as [d a [|y l]]; cbn [printTldTreeI].
    + destruct d, a; simpl; rewrite ?Hnull; simpl; eauto.
    + destruct Hb as [Hb|Hb]; [discriminate|].
      assert (exists ds, show_dom null_s d = Ret ds) as [ds ->]
        by (destruct d; simpl; rewrite ?Hnull; eauto).
      cbn [bind].
      assert (2 <= height (mk_tldnode d a (y :: l)))%nat as H2.
      { pose proof (height_child (mk_tldnode d a (y :: l)) y
                      (or_introl eq_refl)) as Hy.
        destruct y; cbn [height] in Hy |- *; lia. }
      destruct (print_children_defined
                  (fun c => dest <- indent spacer ;;
                            printTldTreeI null_s c dest) (y :: l))
        as [os ->]; [|simpl; eauto].
      intros c Hc. unfold indent.
      replace (Z.of_nat (strlen spacer) + 3 <=? 100) with true
        by (symmetry; apply Z.leb_le; lia).
      cbn [bind].
      pose proof (height_child (mk_tldnode d a (y :: l)) c Hc) as Hlt.
      apply IH; [lia|]. right. simpl strlen. rewrite strlen_cstr. lia.
Qed.
End PrintBounds.

(** X17: with a C library that prints a text for a null pointer,
    [printTldTree] returns normally exactly when the tree is a single node
    or the length of the spacer plus twice the height of the tree is at
    most 101; beyond that, [sprintf] writes past the 100 bytes of [dest]. *)
Theorem printTldTree_buffer_bound (x : list ascii) (node : tldnode)
    (spacer : list ascii) :
  (exists out, printTldTree (Ret x) node spacer = Ret out)
  <-> (subnodes node = []
       \/ Z.of_nat (strlen spacer) + 2 * Z.of_nat (height node) <= 101).
Proof.
  unfold printTldTree. split.
  - intros [out H]. now apply (printTldTreeI_bound _ (height node)) in H.
  - intros H. now apply (printTldTreeI_defined (Ret x) x (height node)).
Qed.

Lemma printTldTree_buffer_bound_witness :
  exists out, printTldTree (Ret (cs "(null)")) scenario_tree [] = Ret out.
Proof.
  apply (printTldTree_buffer_bound (cs "(null)") scenario_tree []).
  right. vm_compute. discriminate.
Defined.
